(** * mcstatquery: the status-query client of [server.js]

    A shallow embedding of the protocol client of [src/server.js]
    (VarInt codec, packet framing, the per-socket probe, the fleet query with
    its cache, the result ordering and the server-list store), followed by
    the properties established about it.

    Conventions.  JavaScript numbers that the code only uses as integers are
    [Z]; the 32-bit coercions of the bit operators are written out
    ([toInt32], [toUint32]).  A [Buffer] is a [list Z] of bytes, read and
    written by index with the bounds checks of Node's [readUInt8] and
    [writeUInt8].  A function that can throw returns [Except]. *)

From Stdlib Require Import ZArith Lia String List Ascii Permutation Sorted.
From stdpp Require Import base list strings pretty.
From Equations Require Import Equations.
From Equations.Prop Require Import Logic.

Open Scope Z_scope.
Set Warnings "-register-all".

(** ** Exceptions *)

Inductive JsError : Type :=
| ERR_OUT_OF_RANGE (what : string) (received : Z)
    (* the RangeError of Buffer.readUInt8 / writeUInt8 *)
| Error (message : string)          (* new Error(message) *)
| SyntaxError (message : string)    (* thrown by JSON.parse *)
| TypeError (message : string).     (* a property read on undefined *)

(** [err.message].  Node's wording for the range error is not reproduced,
    only that it is a string naming the argument. *)
Definition message (e : JsError) : string :=
  match e with
  | ERR_OUT_OF_RANGE what _ => ("The value of " ++ what ++ " is out of range")%string
  | Error m => m
  | SyntaxError m => m
  | TypeError m => m
  end.

Inductive Except (A : Type) : Type :=
| Ok (a : A)
| Throw (e : JsError).
Arguments Ok {A} a.
Arguments Throw {A} e.

Definition bindE {A B} (m : Except A) (k : A -> Except B) : Except B :=
  match m with
  | Ok a => k a
  | Throw e => Throw e
  end.

Notation "'do' x <- m ; k" := (bindE m (fun x => k))
  (at level 10, x name, m at level 100, k at level 200).
Notation "'do' ' p <- m ; k" :=
  (bindE m (fun x => match x with p => k end))
  (at level 10, p pattern, m at level 100, k at level 200).

(** ** 32-bit integer operators of JavaScript *)

Definition toInt32 (z : Z) : Z := (z + 2 ^ 31) mod 2 ^ 32 - 2 ^ 31.
Definition toUint32 (z : Z) : Z := z mod 2 ^ 32.

(** [a & b], [a | b], [a << s], [a >>> s] *)
Definition js_and (a b : Z) : Z := Z.land (toInt32 a) (toInt32 b).
Definition js_or (a b : Z) : Z := Z.lor (toInt32 a) (toInt32 b).
Definition js_shl (a s : Z) : Z := toInt32 (Z.shiftl (toInt32 a) (toUint32 s mod 32)).
Definition js_ushr (a s : Z) : Z := Z.shiftr (toUint32 a) (toUint32 s mod 32).

(** ** Buffer access *)

Abbreviation Buffer := (list Z).

(** [buffer.readUInt8(offset)]: throws when [offset] is past the last byte. *)
Definition readUInt8 (buffer : Buffer) (offset : nat) : Except Z :=
  match buffer !! offset with
  | Some b => Ok b
  | None => Throw (ERR_OUT_OF_RANGE "offset" (Z.of_nat offset))
  end.

(** [buffer.writeUInt8(value, offset)]: throws on a value that is not a byte
    and on an offset past the last byte; the buffer never grows. *)
Definition writeUInt8 (buffer : Buffer) (value : Z) (offset : nat) : Except Buffer :=
  if negb ((0 <=? value) && (value <=? 255)) then
    Throw (ERR_OUT_OF_RANGE "value" value)
  else if decide (offset < length buffer)%nat then
    Ok (<[offset := value]> buffer)
  else Throw (ERR_OUT_OF_RANGE "offset" (Z.of_nat offset)).

(** [Buffer.alloc(size)] *)
Definition Buffer_alloc (size : nat) : Buffer := replicate size 0.

(** [buffer.slice(start, end)] for [0 <= start], [0 <= end] *)
Definition Buffer_slice (buffer : Buffer) (start end_ : nat) : Buffer :=
  take (end_ - start) (drop start buffer).

(** [source.copy(target, targetStart)]: copies as many bytes as fit. *)
Fixpoint Buffer_copy (source target : Buffer) (targetStart : nat) : Buffer :=
  match source with
  | [] => target
  | b :: source' => Buffer_copy source' (<[targetStart := b]> target) (S targetStart)
  end.

(** [buffer.writeUInt16BE(value, offset)] *)
Definition writeUInt16BE (buffer : Buffer) (value : Z) (offset : nat) : Except Buffer :=
  if negb ((0 <=? value) && (value <=? 65535)) then
    Throw (ERR_OUT_OF_RANGE "value" value)
  else if decide (offset + 2 <= length buffer)%nat then
    Ok (<[S offset := value mod 256]> (<[offset := value / 256]> buffer))
  else Throw (ERR_OUT_OF_RANGE "offset" (Z.of_nat offset)).

(** ** VarInt codec *)

(** The number of significant bits of the unsigned view of [value]: the
    measure on which the encoder's loop terminates. *)
Definition bits (value : Z) : nat := Z.to_nat (Z.log2 (toUint32 value)).

(** Each turn of the encoder's loop that continues leaves fewer bits. *)
Ltac bits_decrease :=
  match goal with
  | Hnz : js_ushr ?v 7 <> 0 |- _ =>
      unfold bits, js_ushr, toUint32 in *;
      change (7 mod 2 ^ 32 mod 32) with 7 in *;
      assert (0 <= v mod 2 ^ 32 < 2 ^ 32) by (apply Z.mod_pos_bound; lia);
      assert (128 <= v mod 2 ^ 32)
        by (destruct (Z_lt_le_dec (v mod 2 ^ 32) 128); [|lia];
            rewrite Z.shiftr_div_pow2, Z.div_small in Hnz; lia);
      assert (7 <= Z.log2 (v mod 2 ^ 32)) by (apply Z.log2_le_pow2; lia);
      assert (0 <= Z.shiftr (v mod 2 ^ 32) 7 < 2 ^ 32)
        by (rewrite Z.shiftr_div_pow2 by lia; split;
            [apply Z.div_pos; lia | apply Z.div_lt_upper_bound; lia]);
      rewrite (Z.mod_small (Z.shiftr _ 7)) by lia;
      rewrite Z.log2_shiftr by lia; lia
  end.

(** The [writeVarInt(value)] closure of the connect handler (lines 104-115):
    the bytes pushed by the do-while loop, as [Buffer.from] returns them. *)
Equations writeVarInt_bytes (value : Z) : Buffer by wf (bits value) lt :=
  writeVarInt_bytes value with Z.eq_dec (js_ushr value 7) 0 := {
    | left _ => [js_and value 0x7F]
    | right _ =>
        js_or (js_and value 0x7F) 0x80 :: writeVarInt_bytes (js_ushr value 7) }.
Next Obligation. bits_decrease. Qed.

(** The top-level [writeVarInt(buffer, value, offset)] (lines 236-247): the
    same loop writing in place; returns the buffer as mutated and the offset
    after the last byte written. *)
Equations writeVarInt (buffer : Buffer) (value : Z) (offset : nat)
  : Except (Buffer * nat) by wf (bits value) lt :=
  writeVarInt buffer value offset with Z.eq_dec (js_ushr value 7) 0 := {
    | left _ =>
        match writeUInt8 buffer (js_and value 0x7F) offset with
        | Ok buffer' => Ok (buffer', S offset)
        | Throw e => Throw e
        end
    | right _ =>
        match writeUInt8 buffer (js_or (js_and value 0x7F) 0x80) offset with
        | Ok buffer' => writeVarInt buffer' (js_ushr value 7) (S offset)
        | Throw e => Throw e
        end }.
Next Obligation. bits_decrease. Qed.

(** [readVarInt(buffer, offset)] (lines 280-292).  The loop has no bound of
    its own on the number of bytes: it stops at a byte with the high bit
    clear, or when [readUInt8] throws at the end of the buffer. *)
Equations readVarInt_loop (buffer : Buffer) (result shift : Z) (offset : nat)
  : Except (Z * nat) by wf (length buffer - offset)%nat lt :=
  readVarInt_loop buffer result shift offset with inspect (buffer !! offset) := {
    | exist _ None _ => Throw (ERR_OUT_OF_RANGE "offset" (Z.of_nat offset))
    | exist _ (Some b) _ =>
        let result' := js_or result (js_shl (js_and b 0x7F) shift) in
        if js_and b 0x80 =? 0 then Ok (result', S offset)
        else readVarInt_loop buffer result' (shift + 7) (S offset) }.
Next Obligation.
  match goal with H : _ !! _ = Some _ |- _ => apply lookup_lt_Some in H end. lia.
Qed.

Definition readVarInt (buffer : Buffer) (offset : nat) : Except (Z * nat) :=
  readVarInt_loop buffer 0 0 offset.

(** ** Packet framing *)

(** [Buffer.from(host, 'utf8')]: strings are kept as their UTF-8 bytes. *)
Definition bytes_of_string (s : string) : Buffer :=
  map (fun c => Z.of_nat (nat_of_ascii c)) (list_ascii_of_string s).

Definition string_of_bytes (b : Buffer) : string :=
  string_of_list_ascii (map (fun z => ascii_of_nat (Z.to_nat z)) b).

(** [createHandshakePacket(host, port)] (lines 205-228) *)
Definition createHandshakePacket (host : string) (port : Z) : Except Buffer :=
  let protocolVersion := 763 in
  let hostBuffer := bytes_of_string host in
  let buffer := Buffer_alloc 1024 in
  let offset := 0%nat in
  do '(buffer, offset) <- writeVarInt buffer protocolVersion offset;
  do '(buffer, offset) <- writeVarInt buffer (Z.of_nat (length hostBuffer)) offset;
  let buffer := Buffer_copy hostBuffer buffer offset in
  let offset := (offset + length hostBuffer)%nat in
  do buffer <- writeUInt16BE buffer port offset;
  let offset := (offset + 2)%nat in
  do '(buffer, offset) <- writeVarInt buffer 1 offset;
  Ok (Buffer_slice buffer 0 offset).

(** [createStatusRequestPacket()] (lines 231-233) *)
Definition createStatusRequestPacket : Buffer := Buffer_alloc 0.

(** The [writePacket(packetId, data)] closure (lines 117-122) *)
Definition writePacket (packetId : Z) (data : Buffer) : Buffer :=
  let packetIdBuffer := writeVarInt_bytes packetId in
  let packet := packetIdBuffer ++ data in
  let lengthBuffer := writeVarInt_bytes (Z.of_nat (length packet)) in
  lengthBuffer ++ packet.

(** ** JavaScript values *)

(** The values a parsed status response is made of, with [undefined] for an
    absent property.  Numbers are the integers. *)
Inductive JsVal : Type :=
| Undefined
| Null
| Bool (b : bool)
| Num (n : Z)
| Str (s : string)
| Arr (items : list JsVal)
| Obj (fields : list (string * JsVal)).

(** The result of a numeric coercion. *)
Inductive JsNum : Type :=
| NaN
| Int (n : Z).

(** ToBoolean *)
Definition truthy (v : JsVal) : bool :=
  match v with
  | Undefined | Null => false
  | Bool b => b
  | Num n => negb (n =? 0)
  | Str s => negb (String.eqb s "")
  | Arr _ | Obj _ => true
  end.

(** [a || b] *)
Definition js_oror (a b : JsVal) : JsVal := if truthy a then a else b.

Fixpoint assoc (key : string) (fields : list (string * JsVal)) : JsVal :=
  match fields with
  | [] => Undefined
  | (k, v) :: fields' => if String.eqb k key then v else assoc key fields'
  end.

(** [v.key] on a value that is neither [null] nor [undefined]: an own
    property of an object, [undefined] otherwise (none of the property names
    the code reads is defined on the prototypes of the primitives). *)
Definition getProp (v : JsVal) (key : string) : JsVal :=
  match v with
  | Obj fields => assoc key fields
  | _ => Undefined
  end.

(** [v?.key] *)
Definition optProp (v : JsVal) (key : string) : JsVal :=
  match v with
  | Undefined | Null => Undefined
  | _ => getProp v key
  end.

(** ** The platform

    The built-ins of Node and of the JavaScript engine that the code calls
    and that are not part of the repository. *)
Class Platform : Type := {
  (** [JSON.parse(text)] *)
  JSON_parse : string -> Except JsVal;
  (** [crypto.createHash('md5').update(text).digest('hex')] *)
  md5_hex : string -> string;
  (** [a.localeCompare(b)] *)
  localeCompare : string -> string -> Z;
  (** ToNumber, the coercion applied by the binary [-] *)
  ToNumber : JsVal -> JsNum;
  (** the binary [+] *)
  js_plus : JsVal -> JsVal -> JsVal
}.

(** [buffer.toString('utf8', start, end)]: the bytes from [start] up to
    [end], clamped to the buffer; empty when [end <= start]. *)
Definition Buffer_toString (buffer : Buffer) (start : nat) (end_ : Z) : string :=
  let len := Z.of_nat (length buffer) in
  let end_ := if end_ >? len then len else end_ in
  string_of_bytes (take (Z.to_nat (end_ - Z.of_nat start)) (drop start buffer)).

Section Client.
Context {platform : Platform}.

(** [parseResponse(buffer)] (lines 250-277) *)
Definition parseResponse (buffer : Buffer) : Except JsVal :=
  let offset := 0%nat in
  do '(length, newOffset) <- readVarInt buffer offset;
  let offset := newOffset in
  do '(packetId, newOffset2) <- readVarInt buffer offset;
  let offset := newOffset2 in
  if negb (packetId =? 0x00) then Throw (Error "无效的数据包ID")
  else
    do '(jsonLength, newOffset3) <- readVarInt buffer offset;
    let offset := newOffset3 in
    let jsonData := Buffer_toString buffer offset (Z.of_nat offset + jsonLength) in
    match JSON_parse jsonData with
    | Ok v => Ok v
    | Throw err => Throw (Error ("JSON解析失败: " ++ message err))
    end.


(** ** The probe of one server: [queryMinecraftServer] (lines 58-202) *)

Record Players : Type := {
  p_online : JsVal;
  p_max : JsVal;
  p_sample : JsVal
}.

(** The [responseData] object.  The properties added by the data handler are
    [Undefined] (or [None]) until then; [lastUpdated] is kept as the clock
    reading instead of its ISO rendering. *)
Record ResponseData : Type := {
  rd_id : string;
  rd_name : string;
  rd_address : string;
  rd_port : Z;
  rd_online : bool;
  rd_error : option string;
  rd_lastUpdated : Z;
  rd_ping : option Z;
  rd_latency : option Z;
  rd_version : JsVal;
  rd_protocol : JsVal;
  rd_players : option Players;
  rd_description : JsVal;
  rd_favicon : JsVal
}.

Definition set_online (b : bool) (r : ResponseData) : ResponseData :=
  {| rd_id := rd_id r; rd_name := rd_name r; rd_address := rd_address r;
     rd_port := rd_port r; rd_online := b; rd_error := rd_error r;
     rd_lastUpdated := rd_lastUpdated r; rd_ping := rd_ping r;
     rd_latency := rd_latency r; rd_version := rd_version r;
     rd_protocol := rd_protocol r; rd_players := rd_players r;
     rd_description := rd_description r; rd_favicon := rd_favicon r |}.

Definition set_error (e : string) (r : ResponseData) : ResponseData :=
  {| rd_id := rd_id r; rd_name := rd_name r; rd_address := rd_address r;
     rd_port := rd_port r; rd_online := rd_online r; rd_error := Some e;
     rd_lastUpdated := rd_lastUpdated r; rd_ping := rd_ping r;
     rd_latency := rd_latency r; rd_version := rd_version r;
     rd_protocol := rd_protocol r; rd_players := rd_players r;
     rd_description := rd_description r; rd_favicon := rd_favicon r |}.

Definition set_ping (t : Z) (r : ResponseData) : ResponseData :=
  {| rd_id := rd_id r; rd_name := rd_name r; rd_address := rd_address r;
     rd_port := rd_port r; rd_online := rd_online r; rd_error := rd_error r;
     rd_lastUpdated := rd_lastUpdated r; rd_ping := Some t;
     rd_latency := rd_latency r; rd_version := rd_version r;
     rd_protocol := rd_protocol r; rd_players := rd_players r;
     rd_description := rd_description r; rd_favicon := rd_favicon r |}.

(** What the socket was asked to do, in order. *)
Inductive SocketCall : Type :=
| setTimeout_ (ms : Z)
| connect_ (port : Z) (address : string)
| write_ (data : Buffer)
| end_
| destroy_.

(** The state shared by the handlers of one probe: the [responseData]
    object, the [hasResolved] flag, whether the timer of [timeoutId] is still
    pending, and what [resolve] was called with.

    [resolve(responseData)] passes the object itself; [queryServer] copies
    its properties in the continuation of its [await], which runs before any
    later socket event, so what the caller sees is the object as it is when
    [resolve] is called.  [promise] keeps that state, and only the first call
    of [resolve] counts. *)
Record Probe : Type := {
  responseData : ResponseData;
  hasResolved : bool;
  timeoutId : bool;
  promise : option ResponseData;
  socket : list SocketCall
}.

Definition resolve (r : ResponseData) (p : option ResponseData) : option ResponseData :=
  match p with
  | None => Some r
  | Some r0 => Some r0
  end.

(** What the socket and the timer deliver. *)
Inductive SocketEvent : Type :=
| ev_connect (now : Z)
| ev_data (now : Z) (chunk : Buffer)
| ev_error (err_message : string)
| ev_close
| ev_timeout           (* the socket's idle timeout, [socket.setTimeout] *)
| ev_timer.            (* the callback of [setTimeout(..., timeout + 1000)] *)

Section Probe.
Variables (host : string) (port : Z) (name : string) (startTime : Z).

Definition timeout_ms : Z := 5000.

(** [resolveHostname(hostname)] (lines 26-33); [lookup] is what [dns.lookup]
    calls back with, [None] for an error. *)
Definition resolveHostname (hostname : string) (lookup : option string) : string :=
  match lookup with
  | None => hostname
  | Some address => address
  end.

(** The callback of [setTimeout] (lines 87-95) and the handler of the
    socket's 'timeout' event (lines 180-188) have the same body. *)
Definition on_deadline (p : Probe) : Probe :=
  if negb (hasResolved p) then
    let rd := set_online false (set_error "连接超时" (responseData p)) in
    {| responseData := rd; hasResolved := true; timeoutId := timeoutId p;
       promise := resolve rd (promise p);
       socket := socket p ++ [destroy_] |}
  else p.

(** 'connect' (lines 97-131).  An exception of [createHandshakePacket]
    leaves the handler after [ping] is set. *)
Definition on_connect (now : Z) (p : Probe) : Probe :=
  let rd := set_ping (now - startTime) (responseData p) in
  match createHandshakePacket host port with
  | Throw _ =>
      {| responseData := rd; hasResolved := hasResolved p;
         timeoutId := timeoutId p; promise := promise p; socket := socket p |}
  | Ok handshake =>
      let statusRequest := createStatusRequestPacket in
      let handshakePacket := writePacket 0x00 handshake in
      let statusPacket := writePacket 0x00 statusRequest in
      {| responseData := rd; hasResolved := hasResolved p;
         timeoutId := timeoutId p; promise := promise p;
         socket := socket p ++ [write_ handshakePacket; write_ statusPacket] |}
  end.

(** The assignments of lines 137-150. *)
Definition set_status (response : JsVal) (now : Z) (r : ResponseData) : ResponseData :=
  {| rd_id := rd_id r; rd_name := rd_name r; rd_address := rd_address r;
     rd_port := rd_port r;
     rd_online := true;
     rd_error := rd_error r;
     rd_lastUpdated := rd_lastUpdated r;
     rd_ping := Some (match rd_ping r with
                      | Some t => if t =? 0 then 0 else t
                      | None => 0
                      end);
     rd_latency := Some (now - startTime);
     rd_version := js_oror (optProp (getProp response "version") "name") (Str "Unknown");
     rd_protocol := js_oror (optProp (getProp response "version") "protocol") (Num 0);
     rd_players :=
       Some {| p_online := js_oror (optProp (getProp response "players") "online") (Num 0);
               p_max := js_oror (optProp (getProp response "players") "max") (Num 0);
               p_sample := js_oror (optProp (getProp response "players") "sample") (Arr []) |};
     rd_description :=
       js_oror (js_oror (optProp (getProp response "description") "text")
                  (getProp response "description"))
         (Str "A Minecraft Server");
     rd_favicon := js_oror (getProp response "favicon") Null |}.

(** 'data' (lines 133-157).  The handler never calls [resolve]. *)
Definition on_data (now : Z) (chunk : Buffer) (p : Probe) : Probe :=
  let rd :=
    match parseResponse chunk with
    | Ok response =>
        if truthy response && truthy (getProp response "players")
        then set_status response now (responseData p)
        else responseData p
    | Throw err => set_error ("解析响应失败: " ++ message err) (responseData p)
    end in
  {| responseData := rd; hasResolved := hasResolved p;
     timeoutId := timeoutId p; promise := promise p;
     socket := socket p ++ [end_] |}.

(** 'error' (lines 159-166) *)
Definition on_error (err_message : string) (p : Probe) : Probe :=
  if negb (hasResolved p) then
    let rd := set_online false (set_error ("连接错误: " ++ err_message) (responseData p)) in
    {| responseData := rd; hasResolved := true; timeoutId := timeoutId p;
       promise := resolve rd (promise p); socket := socket p |}
  else p.

(** [!responseData.error] *)
Definition no_error (e : option string) : bool :=
  match e with
  | None => true
  | Some m => String.eqb m ""
  end.

(** 'close' (lines 168-178) *)
Definition on_close (p : Probe) : Probe :=
  if negb (hasResolved p) then
    let rd := if no_error (rd_error (responseData p))
              then set_error "连接关闭" (responseData p)
              else responseData p in
    let rd := set_online false rd in
    {| responseData := rd; hasResolved := true; timeoutId := false;
       promise := resolve rd (promise p); socket := socket p |}
  else p.

(** The state after the synchronous part of the executor (lines 60-95 and
    190-200): [lookup] is the outcome of the DNS lookup, [nowStamp] the clock
    at the creation of [responseData], and [connectThrows] the message of the
    exception of [socket.connect], if it throws. *)
Definition start (lookup : option string) (nowStamp : Z)
    (connectThrows : option string) : Probe :=
  let serverAddress := resolveHostname host lookup in
  let rd :=
    {| rd_id := substring 0 8 (md5_hex (host ++ ":" ++ pretty port));
       rd_name := name; rd_address := host; rd_port := port;
       rd_online := false; rd_error := None; rd_lastUpdated := nowStamp;
       rd_ping := None; rd_latency := None;
       rd_version := Undefined; rd_protocol := Undefined; rd_players := None;
       rd_description := Undefined; rd_favicon := Undefined |} in
  let calls := [setTimeout_ timeout_ms; connect_ port serverAddress] in
  match connectThrows with
  | None =>
      {| responseData := rd; hasResolved := false; timeoutId := true;
         promise := None; socket := calls |}
  | Some err_message =>
      let rd := set_online false (set_error ("连接失败: " ++ err_message) rd) in
      {| responseData := rd; hasResolved := true; timeoutId := false;
         promise := Some rd; socket := calls |}
  end.

(** One turn of the event loop.  The timer's callback runs only while the
    timer is pending, and once. *)
Definition step (p : Probe) (ev : SocketEvent) : Probe :=
  match ev with
  | ev_connect now => on_connect now p
  | ev_data now chunk => on_data now chunk p
  | ev_error err_message => on_error err_message p
  | ev_close => on_close p
  | ev_timeout => on_deadline p
  | ev_timer =>
      if timeoutId p then
        let p' := on_deadline p in
        {| responseData := responseData p'; hasResolved := hasResolved p';
           timeoutId := false; promise := promise p'; socket := socket p' |}
      else p
  end.

Definition run (p : Probe) (events : list SocketEvent) : Probe :=
  fold_left step events p.

End Probe.

(** What the network does to one probe. *)
Record ProbeEnv : Type := {
  pe_startTime : Z;
  pe_created : Z;
  pe_lookup : option string;
  pe_connectThrows : option string;
  pe_events : list SocketEvent
}.

(** [queryMinecraftServer(host, port = 25565, name)]: the value the promise
    is resolved with.  The timer set at line 87 fires unless it was cleared,
    so its callback ends every run. *)
Definition settled (host : string) (port : Z) (name : string) (env : ProbeEnv) : Probe :=
  run host port (pe_startTime env)
    (start host port name (pe_lookup env) (pe_created env) (pe_connectThrows env))
    (pe_events env ++ [ev_timer]).

Definition queryMinecraftServer (host : string) (port : option Z) (name : string)
    (env : ProbeEnv) : option ResponseData :=
  let port := default 25565 port in
  promise (settled host port name env).

(** ** The server list store (lines 36-55) *)

(** A record of [servers.json].  Identifiers are numbers, as the handler
    that adds a server creates them, and names and addresses are strings, as
    the page sends them.  The store can hold other JSON values in their
    place (the routes do not check the types); such a store is outside this
    model, and with it the TypeError of [localeCompare] on a name that is
    not a string. *)
Record Server : Type := {
  srv_id : Z;
  srv_name : string;
  srv_address : string;
  srv_port : Z;
  srv_type : option string;
  srv_category : option string;
  srv_description : option string
}.

(** What [fs.readFile] followed by [JSON.parse] comes to: the read throws,
    the text does not parse, or the list is there. *)
Inductive ReadFile : Type :=
| read_throws (err : JsError)
| parse_throws (err : JsError)
| read_ok (servers : list Server).

(** [getServerList()] *)
Definition getServerList (file : ReadFile) : list Server :=
  match file with
  | read_ok servers => servers
  | read_throws _ | parse_throws _ => []
  end.

(** [saveServerList(servers)]; [write] is the exception of [fs.writeFile],
    if it throws. *)
Definition saveServerList (servers : list Server) (write : option JsError) : bool :=
  match write with
  | None => true
  | Some _ => false
  end.

(** ** One server of the fleet: [queryServer] (lines 295-314) *)

(** The [id] of a result: the number of the store or a string. *)
Inductive JsId : Type :=
| IdNum (n : Z)
| IdStr (s : string).

(** The object [queryServer] returns: the properties of the store's record
    and of the probe's result, spread in that order. *)
Record ServerStatus : Type := {
  st_id : JsId;
  st_name : string;
  st_address : string;
  st_port : Z;
  st_type : option string;
  st_category : option string;
  st_description : option string;
  st_online : bool;
  st_error : option string;
  st_lastUpdated : Z;
  st_ping : option Z;
  st_latency : option Z;
  st_version : JsVal;
  st_protocol : JsVal;
  st_players : option Players;
  st_favicon : JsVal
}.

(** [s || d] on an optional string *)
Definition str_oror (s : option string) (d : string) : string :=
  match s with
  | Some v => if String.eqb v "" then d else v
  | None => d
  end.

(** The two branches of the try of [queryServer]: [result] is what the
    awaited promise settles with. *)
Definition queryServer_settled (server : Server) (result : Except ResponseData)
    (now : Z) : ServerStatus :=
  match result with
  | Ok result =>
      (* { ...server, ...result, category, description, lastUpdated } *)
      {| st_id := IdStr (rd_id result);
         st_name := rd_name result;
         st_address := rd_address result;
         st_port := rd_port result;
         st_type := srv_type server;
         st_category := Some (str_oror (srv_category server) "未分类");
         st_description := Some (str_oror (srv_description server) "");
         st_online := rd_online result;
         st_error := rd_error result;
         st_lastUpdated := now;
         st_ping := rd_ping result;
         st_latency := rd_latency result;
         st_version := rd_version result;
         st_protocol := rd_protocol result;
         st_players := rd_players result;
         st_favicon := rd_favicon result |}
  | Throw error =>
      (* { ...server, online: false, error, players, lastUpdated } *)
      {| st_id := IdNum (srv_id server);
         st_name := srv_name server;
         st_address := srv_address server;
         st_port := srv_port server;
         st_type := srv_type server;
         st_category := srv_category server;
         st_description := srv_description server;
         st_online := false;
         st_error := Some (message error);
         st_lastUpdated := now;
         st_ping := None;
         st_latency := None;
         st_version := Undefined;
         st_protocol := Undefined;
         st_players := Some {| p_online := Num 0; p_max := Num 0; p_sample := Arr [] |};
         st_favicon := Undefined |}
  end.

(** What the network does during [queryServer]: the probe's run and the
    clock when it is over. *)
Record QueryEnv : Type := {
  qe_probe : ProbeEnv;
  qe_done : Z
}.

(** [queryServer(server)]; [None] when the awaited promise never settles. *)
Definition queryServer (server : Server) (env : QueryEnv) : option ServerStatus :=
  match queryMinecraftServer (srv_address server) (Some (srv_port server))
          (srv_name server) (qe_probe env) with
  | Some result => Some (queryServer_settled server (Ok result) (qe_done env))
  | None => None
  end.

(** ** The ordering of the results (lines 336-343) *)

(** [x - y] *)
Definition js_minus (x y : JsVal) : JsNum :=
  match ToNumber x, ToNumber y with
  | Int a, Int b => Int (a - b)
  | _, _ => NaN
  end.

(** The comparator passed to [sort].  Reading [players.online] of a result
    without [players] is a TypeError. *)
Definition comparator (a b : ServerStatus) : Except JsNum :=
  if st_online a && negb (st_online b) then Ok (Int (-1))
  else if negb (st_online a) && st_online b then Ok (Int 1)
  else if st_online a && st_online b then
    match st_players b, st_players a with
    | Some pb, Some pa => Ok (js_minus (p_online pb) (p_online pa))
    | _, _ => Throw (TypeError "Cannot read properties of undefined")
    end
  else Ok (Int (localeCompare (st_name a) (st_name b))).

End Client.

(** [array.sort(comparefn)].  The sort of the language is stable and, with a
    consistent comparator, yields the one arrangement that is ordered and
    keeps elements that compare equal in their order of arrival.  It is
    modelled by the stable insertion sort; which pairs an engine compares is
    its own business and shows only when [comparefn] throws. *)
Section Sort.
Context {A : Type} (comparefn : A -> A -> Except JsNum).

(** SortCompare: a NaN counts as +0. *)
Definition SortCompare (x y : A) : Except Z :=
  do v <- comparefn x y;
  Ok (match v with NaN => 0 | Int n => n end).

Fixpoint sort_insert (x : A) (sorted : list A) : Except (list A) :=
  match sorted with
  | [] => Ok [x]
  | y :: sorted' =>
      do c <- SortCompare x y;
      if c <=? 0 then Ok (x :: y :: sorted')
      else do rest <- sort_insert x sorted'; Ok (y :: rest)
  end.

Fixpoint Array_sort (l : list A) : Except (list A) :=
  match l with
  | [] => Ok []
  | x :: l' => do sorted <- Array_sort l'; sort_insert x sorted
  end.

End Sort.

(** ** The fleet query and its cache (lines 19-23 and 317-362) *)

Record FleetData : Type := {
  fd_servers : list ServerStatus;
  fd_total : nat;
  fd_online : nat;
  fd_totalPlayers : JsVal;
  fd_lastUpdated : Z;
  fd_timestamp : Z
}.

(** [serverCache.data]: the empty object of the start, or a snapshot. *)
Inductive CacheData : Type :=
| EmptyData
| Fleet (d : FleetData).

Record ServerCache : Type := {
  cache_data : CacheData;
  cache_lastUpdated : Z;
  cache_ttl : Z
}.

Definition serverCache : ServerCache :=
  {| cache_data := EmptyData; cache_lastUpdated := 0; cache_ttl := 30000 |}.

(** [serverCache.lastUpdated = 0], the statement by which the handlers drop
    the cache (lines 422, 496, 534 and 546). *)
Definition invalidate (c : ServerCache) : ServerCache :=
  {| cache_data := cache_data c; cache_lastUpdated := 0; cache_ttl := cache_ttl c |}.

(** What a call of [queryAllServers] did: its result, the cache it leaves,
    and the servers it probed. *)
Record QueryAll : Type := {
  qa_result : Except CacheData;
  qa_cache : ServerCache;
  qa_probed : list Server
}.

Section Fleet.
Context {platform : Platform}.

(** [s.players?.online || 0] *)
Definition players_online (s : ServerStatus) : JsVal :=
  js_oror (match st_players s with
           | Some p => p_online p
           | None => Undefined
           end) (Num 0).

(** [queryAllServers(useCache)].  [now] is the clock at entry, [file] the
    state of the store, [net] what the network does to the probe of each
    server and [stamp] the clock when the snapshot is built.  [None] when
    some probe never settles.  The promises of [queryServer] are never
    rejected, so the [catch] put on each of them has nothing to model. *)
Definition queryAllServers (useCache : bool) (now : Z) (c : ServerCache)
    (file : ReadFile) (net : Server -> QueryEnv) (stamp : Z) : option QueryAll :=
  if useCache && (now - cache_lastUpdated c <? cache_ttl c) then
    Some {| qa_result := Ok (cache_data c); qa_cache := c; qa_probed := [] |}
  else
    let servers := getServerList file in
    match mapM (fun server => queryServer server (net server)) servers with
    | None => None
    | Some results =>
        match Array_sort comparator results with
        | Ok sortedResults =>
            let d := Fleet
              {| fd_servers := sortedResults;
                 fd_total := length sortedResults;
                 fd_online := length (filter (fun s => st_online s = true) sortedResults);
                 fd_totalPlayers :=
                   fold_left (fun sum s => js_plus sum (players_online s))
                     sortedResults (Num 0);
                 fd_lastUpdated := stamp;
                 fd_timestamp := now |} in
            Some {| qa_result := Ok d;
                    qa_cache := {| cache_data := d; cache_lastUpdated := now;
                                   cache_ttl := cache_ttl c |};
                    qa_probed := servers |}
        | Throw error =>
            Some {| qa_result := Throw error; qa_cache := c; qa_probed := servers |}
        end
    end.

End Fleet.

(** ** The routes that change the store (lines 397-429 and 454-516) *)

(** The body of the request that adds a server, with the types of the body
    the page sends ([addServer], src/js/app.js lines 449-458): strings, and a
    number for the port.  A body with other JSON values is outside the
    model. *)
Record NewServer : Type := {
  body_name : option string;
  body_address : option string;
  body_port : option Z;
  body_category : option string;
  body_description : option string
}.

Inductive ResBody : Type :=
| body_error (error : string) (details : option string)
| body_success (server : Server) (message : option string).

Record HttpResponse : Type := {
  status : Z;
  body : ResBody
}.

(** What a handler did: its response, the cache it leaves, and the list
    that reached the file, if one did. *)
Record Handled : Type := {
  h_response : HttpResponse;
  h_cache : ServerCache;
  h_saved : option (list Server)
}.

(** [!s] on an optional string *)
Definition str_not (s : option string) : bool :=
  match s with
  | Some v => String.eqb v ""
  | None => true
  end.

(** POST /api/servers.  The value of [saveServerList] is not looked at. *)
Definition post_servers (req : NewServer) (file : ReadFile)
    (write : option JsError) (c : ServerCache) : Handled :=
  if str_not (body_name req) || str_not (body_address req) then
    {| h_response := {| status := 400;
                        body := body_error "服务器名称和地址不能为空" None |};
       h_cache := c; h_saved := None |}
  else
    let servers := getServerList file in
    let newId := match map srv_id servers with
                 | [] => 1
                 | i :: ids => fold_left Z.max ids i + 1
                 end in
    let newServer :=
      {| srv_id := newId;
         srv_name := str_oror (body_name req) "";
         srv_address := str_oror (body_address req) "";
         srv_port := match body_port req with
                     | Some n => if n =? 0 then 25565 else n
                     | None => 25565
                     end;
         srv_type := Some "java";
         srv_category := Some (str_oror (body_category req) "未分类");
         srv_description := Some (str_oror (body_description req) "") |} in
    let servers := servers ++ [newServer] in
    let saved := saveServerList servers write in
    {| h_response := {| status := 200; body := body_success newServer None |};
       h_cache := invalidate c;
       h_saved := if saved then Some servers else None |}.

Fixpoint findIndex (serverId : Z) (servers : list Server) : option nat :=
  match servers with
  | [] => None
  | s :: servers' =>
      if srv_id s =? serverId then Some 0%nat
      else option_map S (findIndex serverId servers')
  end.

(** The double quote, for the texts that quote a name or an id. *)
Definition double_quote : string := String (ascii_of_nat 34) EmptyString.

(** DELETE /api/server/:id from line 462 on; [serverId] is
    [parseInt(req.params.id)].  The details of the answer to an id that is
    not a number quote the text of the id, which this function does not
    have: [delete_request], below, is the route with them.  The index
    [findIndex] returns is always within the list, so the lookup at it
    always succeeds. *)
Definition delete_server (serverId : JsNum) (file : ReadFile)
    (write : option JsError) (c : ServerCache) : Handled :=
  let servers := getServerList file in
  match serverId with
  | NaN =>
      {| h_response := {| status := 400;
                          body := body_error "无效的服务器ID" None |};
         h_cache := c; h_saved := None |}
  | Int serverId =>
      let not_found :=
        {| h_response :=
             {| status := 404;
                body := body_error "服务器未找到"
                          (Some ("ID为 " ++ pretty serverId ++ " 的服务器不存在")%string) |};
           h_cache := c; h_saved := None |} in
      match findIndex serverId servers with
      | None => not_found
      | Some serverIndex =>
          match servers !! serverIndex with
          | None => not_found
          | Some deletedServer =>
              (* servers.splice(serverIndex, 1) *)
              let servers := take serverIndex servers ++ drop (S serverIndex) servers in
              let saveResult := saveServerList servers write in
              if negb saveResult then
                {| h_response :=
                     {| status := 500;
                        body := body_error "删除服务器失败"
                                  (Some "保存服务器列表到文件失败") |};
                   h_cache := c; h_saved := None |}
              else
                {| h_response :=
                     {| status := 200;
                        body := body_success deletedServer
                                  (Some ("服务器 " ++ double_quote
                                         ++ srv_name deletedServer ++ double_quote
                                         ++ " 已成功删除")%string) |};
                   h_cache := invalidate c; h_saved := Some servers |}
          end
      end
  end.

(** POST /api/refresh (lines 544-553) *)
Definition refresh {platform : Platform} (now : Z) (c : ServerCache)
    (file : ReadFile) (net : Server -> QueryEnv) (stamp : Z) : option QueryAll :=
  queryAllServers false now (invalidate c) file net stamp.

(** ** The route that updates a server (lines 519-541) *)

(** The body of the request: the properties it gives, typed as the store
    has them. *)
Record ServerPatch : Type := {
  patch_id : option Z;
  patch_name : option string;
  patch_address : option string;
  patch_port : option Z;
  patch_type : option string;
  patch_category : option string;
  patch_description : option string
}.

(** [{ ...server, ...body }] *)
Definition spread_patch (server : Server) (body : ServerPatch) : Server :=
  {| srv_id := default (srv_id server) (patch_id body);
     srv_name := default (srv_name server) (patch_name body);
     srv_address := default (srv_address server) (patch_address body);
     srv_port := default (srv_port server) (patch_port body);
     srv_type := match patch_type body with
                 | Some v => Some v
                 | None => srv_type server
                 end;
     srv_category := match patch_category body with
                     | Some v => Some v
                     | None => srv_category server
                     end;
     srv_description := match patch_description body with
                        | Some v => Some v
                        | None => srv_description server
                        end |}.

(** PUT /api/server/:id.  The server is looked for with
    [s.id == req.params.id], a number against a string, which compares the
    number with the ToNumber of the string: [serverId] is that number.  The
    value of [saveServerList] is not looked at.  The index [findIndex]
    returns is within the list, so the lookup at it always succeeds. *)
Definition put_server (serverId : JsNum) (body : ServerPatch)
    (file : ReadFile) (write : option JsError) (c : ServerCache) : Handled :=
  let servers := getServerList file in
  let not_found :=
    {| h_response := {| status := 404; body := body_error "服务器未找到" None |};
       h_cache := c; h_saved := None |} in
  match serverId with
  | NaN => not_found
  | Int serverId =>
      match findIndex serverId servers with
      | None => not_found
      | Some index =>
          match servers !! index with
          | None => not_found
          | Some current =>
              let updatedServer := spread_patch current body in
              let servers := <[index := updatedServer]> servers in
              let saved := saveServerList servers write in
              {| h_response := {| status := 200;
                                  body := body_success updatedServer None |};
                 h_cache := invalidate c;
                 h_saved := if saved then Some servers else None |}
          end
      end
  end.

(** ** The routes that answer with the fleet (lines 367-376 and 544-553) *)

Inductive FleetResponse : Type :=
| fleet_json (data : CacheData)                 (* res.json(serverData) *)
| fleet_error (status : Z) (error : string).    (* res.status(500).json({ error }) *)

(** What such a route did: its response and the cache it leaves; [None]
    when it never answers. *)
Definition fleet_route (prefix : string) (q : option QueryAll)
  : option (FleetResponse * ServerCache) :=
  match q with
  | None => None
  | Some q =>
      Some (match qa_result q with
            | Ok serverData => fleet_json serverData
            | Throw error => fleet_error 500 (prefix ++ message error)
            end, qa_cache q)
  end.

(** GET /api/servers; [nocache] is [req.query.nocache]. *)
Definition get_servers {platform : Platform} (nocache : option string) (now : Z)
    (c : ServerCache) (file : ReadFile) (net : Server -> QueryEnv) (stamp : Z)
  : option (FleetResponse * ServerCache) :=
  let useCache := negb (match nocache with
                        | Some v => String.eqb v "true"
                        | None => false
                        end) in
  fleet_route "获取服务器列表失败: " (queryAllServers useCache now c file net stamp).

(** POST /api/refresh, with its response *)
Definition post_refresh {platform : Platform} (now : Z) (c : ServerCache)
    (file : ReadFile) (net : Server -> QueryEnv) (stamp : Z)
  : option (FleetResponse * ServerCache) :=
  fleet_route "刷新服务器失败: " (refresh now c file net stamp).

(** ** The identifier of a route: [parseInt(req.params.id)] (line 462) *)

(** The white space of ASCII; strings hold UTF-8, and the white space
    outside ASCII is not trimmed. *)
Definition is_white_space (c : ascii) : bool :=
  let n := Z.of_N (N_of_ascii c) in
  ((9 <=? n) && (n <=? 13)) || (n =? 32).

Fixpoint trim_start (s : string) : string :=
  match s with
  | String c s' => if is_white_space c then trim_start s' else s
  | EmptyString => s
  end.

(** The value of a digit of the radix, if it is one. *)
Definition digit_value (radix : Z) (c : ascii) : option Z :=
  let n := Z.of_N (N_of_ascii c) in
  let v := if (48 <=? n) && (n <=? 57) then Some (n - 48)
           else if (97 <=? n) && (n <=? 122) then Some (n - 87)
           else if (65 <=? n) && (n <=? 90) then Some (n - 55)
           else None in
  match v with
  | Some v => if v <? radix then Some v else None
  | None => None
  end.

(** The longest prefix of digits, as a number; [None] when it is empty. *)
Fixpoint parse_digits (radix : Z) (s : string) (acc : option Z) : option Z :=
  match s with
  | String c s' =>
      match digit_value radix c with
      | Some v => parse_digits radix s' (Some (default 0 acc * radix + v))
      | None => acc
      end
  | EmptyString => acc
  end.

(** [parseInt(text)], without a radix.  The value is exact below 2^53. *)
Definition parseInt (text : string) : JsNum :=
  let s := trim_start text in
  let '(sign, s) :=
    match s with
    | String "-" s' => (-1, s')
    | String "+" s' => (1, s')
    | _ => (1, s)
    end in
  let '(R, s) :=
    match s with
    | String "0" (String "x" s') | String "0" (String "X" s') => (16, s')
    | _ => (10, s)
    end in
  match parse_digits R s None with
  | Some n => Int (sign * n)
  | None => NaN
  end.

(** DELETE /api/server/:id (lines 454-516), in full; [id] is
    [req.params.id], the text in the path.  The page sends it from
    [deleteServer(serverId, serverName)] (src/js/app.js, lines 580-629). *)
Definition delete_request (id : string) (file : ReadFile)
    (write : option JsError) (c : ServerCache) : Handled :=
  match parseInt id with
  | NaN =>
      {| h_response :=
           {| status := 400;
              body := body_error "无效的服务器ID"
                        (Some ("ID " ++ double_quote ++ id ++ double_quote
                               ++ " 不是有效的数字")%string) |};
         h_cache := c; h_saved := None |}
  | Int serverId => delete_server (Int serverId) file write c
  end.

(** * The page (src/js/app.js) *)

(** ** Regular expressions

    The patterns of the page are anchored at both ends and use classes,
    sequence, alternation and counted repetition only, so [pattern.test]
    is membership in the language of the pattern; it is decided here by
    derivatives. *)

Inductive Regex : Type :=
| Never                                   (* matches nothing *)
| Eps                                     (* the empty string *)
| Class (member : ascii -> bool)          (* [...] *)
| Seq (a b : Regex)                       (* ab *)
| Alt (a b : Regex)                       (* a|b *)
| Star (a : Regex)                        (* a* *)
| Rep (a : Regex) (min max : nat).        (* a{min,max} *)

(** a? *)
Definition Opt (a : Regex) : Regex := Rep a 0 1.
(** a+ *)
Definition Plus (a : Regex) : Regex := Seq a (Star a).
(** a{n} *)
Definition Times (a : Regex) (n : nat) : Regex := Rep a n n.
(** a{n,} *)
Definition AtLeast (a : Regex) (n : nat) : Regex := Seq (Rep a n n) (Star a).

(** [c1-c2] *)
Definition range (c1 c2 : ascii) (c : ascii) : bool :=
  (N_of_ascii c1 <=? N_of_ascii c)%N && (N_of_ascii c <=? N_of_ascii c2)%N.

(** One character *)
Definition Chr (c : ascii) : Regex := Class (Ascii.eqb c).

(** The characters of a word, in a row *)
Fixpoint Lit (word : string) : Regex :=
  match word with
  | EmptyString => Eps
  | String c word' => Seq (Chr c) (Lit word')
  end.

Fixpoint nullable (r : Regex) : bool :=
  match r with
  | Never => false
  | Eps => true
  | Class _ => false
  | Seq a b => nullable a && nullable b
  | Alt a b => nullable a || nullable b
  | Star _ => true
  | Rep a min max => (min <=? max)%nat && ((min =? 0)%nat || nullable a)
  end.

Fixpoint deriv (c : ascii) (r : Regex) : Regex :=
  match r with
  | Never => Never
  | Eps => Never
  | Class member => if member c then Eps else Never
  | Seq a b =>
      if nullable a then Alt (Seq (deriv c a) b) (deriv c b)
      else Seq (deriv c a) b
  | Alt a b => Alt (deriv c a) (deriv c b)
  | Star a => Seq (deriv c a) (Star a)
  | Rep a min max =>
      match max with
      | O => Never
      | S max' => Seq (deriv c a) (Rep a (Nat.pred min) max')
      end
  end.

(** [/^r$/.test(text)] *)
Fixpoint RegExp_test (r : Regex) (text : string) : bool :=
  match text with
  | EmptyString => nullable r
  | String c text' => RegExp_test (deriv c r) text'
  end.

(** ** The address of the form: [isValidAddress] (lines 537-547) *)

(** [[a-zA-Z0-9]] *)
Definition alnum (c : ascii) : bool :=
  range "a" "z" c || range "A" "Z" c || range "0" "9" c.

(** [[a-zA-Z0-9\-]] *)
Definition alnum_hyphen (c : ascii) : bool :=
  range "a" "z" c || range "A" "Z" c || range "0" "9" c || Ascii.eqb "-" c.

(** [[a-zA-Z]] *)
Definition alpha (c : ascii) : bool :=
  range "a" "z" c || range "A" "Z" c.

(** [[a-zA-Z0-9\-_]] *)
Definition host_char (c : ascii) : bool :=
  range "a" "z" c || range "A" "Z" c || range "0" "9" c
  || Ascii.eqb "-" c || Ascii.eqb "_" c.

(** [[a-zA-Z0-9]([a-zA-Z0-9\-]{0,61}[a-zA-Z0-9])?] *)
Definition label_pattern : Regex :=
  Seq (Class alnum) (Opt (Seq (Rep (Class alnum_hyphen) 0 61) (Class alnum))).

(** The pattern of a domain name *)
Definition domain_pattern : Regex :=
  Seq label_pattern
    (Seq (Star (Seq (Chr ".") label_pattern))
       (Seq (Chr ".") (AtLeast (Class alpha) 2))).

(** [(?:25[0-5]|2[0-4][0-9]|[01]?[0-9][0-9]?)] *)
Definition octet_pattern : Regex :=
  Alt (Seq (Chr "2") (Seq (Chr "5") (Class (range "0" "5"))))
    (Alt (Seq (Chr "2") (Seq (Class (range "0" "4")) (Class (range "0" "9"))))
       (Seq (Opt (Class (range "0" "1")))
          (Seq (Class (range "0" "9")) (Opt (Class (range "0" "9")))))).

(** The pattern of an IPv4 address *)
Definition ipv4_pattern : Regex :=
  Seq (Times (Seq octet_pattern (Chr ".")) 3) octet_pattern.

Definition localhost_pattern : Regex := Lit "localhost".

(** The pattern of a host name without a suffix *)
Definition hostname_pattern : Regex := Plus (Class host_char).

Definition patterns : list Regex :=
  [domain_pattern; ipv4_pattern; localhost_pattern; hostname_pattern].

(** [isValidAddress(address)] *)
Definition isValidAddress (address : string) : bool :=
  existsb (fun pattern => RegExp_test pattern address) patterns.

(** ** The form that adds a server (lines 431-512) *)

(** [formData], the trimmed values of the fields; the port is '25565' when
    its field is empty. *)
Record FormData : Type := {
  form_name : string;
  form_address : string;
  form_port : string;
  form_category : string;
  form_description : string
}.

(** The code units of UTF-16 that a byte of UTF-8 starts: one for a byte of
    ASCII and for the first byte of a sequence of two or three, two for the
    first byte of a sequence of four, none for a continuation byte. *)
Definition utf16_units (c : ascii) : nat :=
  let n := Z.of_N (N_of_ascii c) in
  if n <? 128 then 1
  else if n <? 192 then 0
  else if n <? 240 then 1
  else 2.

(** [text.length], of a string held as UTF-8 *)
Fixpoint js_length (text : string) : nat :=
  match text with
  | EmptyString => 0
  | String c text' => utf16_units c + js_length text'
  end.

(** [validateServerForm(data)].  The second component lists the calls of
    [showFormError], in order: the element and the message. *)
Definition validateServerForm (data : FormData) : bool * list (string * string) :=
  let isValid := true in
  let shown := [] in
  let '(isValid, shown) :=
    if String.eqb (form_name data) "" then
      (false, shown ++ [("nameError", "请输入服务器名称")])
    else if (50 <? js_length (form_name data))%nat then
      (false, shown ++ [("nameError", "服务器名称不能超过50个字符")])
    else (isValid, shown) in
  let '(isValid, shown) :=
    if String.eqb (form_address data) "" then
      (false, shown ++ [("addressError", "请输入服务器地址")])
    else if negb (isValidAddress (form_address data)) then
      (false, shown ++ [("addressError", "请输入有效的服务器地址")])
    else (isValid, shown) in
  let port := parseInt (form_port data) in
  let '(isValid, shown) :=
    if match port with
       | NaN => true
       | Int port => (port <? 1) || (65535 <? port)
       end
    then (false, shown ++ [("portError", "端口号必须在 1-65535 之间")])
    else (isValid, shown) in
  (isValid, shown).

(** The body [addServer] posts: [{ ...formData, port: parseInt(formData.port) }],
    as the route reads it after JSON; a NaN travels as null. *)
Definition addServer_body (formData : FormData) : NewServer :=
  {| body_name := Some (form_name formData);
     body_address := Some (form_address formData);
     body_port := match parseInt (form_port formData) with
                  | Int port => Some port
                  | NaN => None
                  end;
     body_category := Some (form_category formData);
     body_description := Some (form_description formData) |}.

(** [addServer(event)] up to its request: [None] when the form is not
    valid and nothing is sent. *)
Definition addServer (formData : FormData) : option NewServer :=
  if negb (fst (validateServerForm formData)) then None
  else Some (addServer_body formData).

(** ** Relative times: [formatRelativeTime] (lines 899-917) *)

Section RelativeTime.
(** [date.toLocaleTimeString('zh-CN', ...)], by the time in milliseconds *)
Variable toLocaleTimeString : Z -> string.

(** [formatRelativeTime(timestamp)]; [now] is the clock. *)
Definition formatRelativeTime (timestamp now : Z) : string :=
  let diffMs := now - timestamp in
  let diffSec := diffMs / 1000 in
  let diffMin := diffSec / 60 in
  let diffHour := diffMin / 60 in
  if diffSec <? 10 then "刚刚"
  else if diffSec <? 60 then pretty diffSec ++ "秒前"
  else if diffMin <? 60 then pretty diffMin ++ "分钟前"
  else if diffHour <? 24 then pretty diffHour ++ "小时前"
  else toLocaleTimeString timestamp.

End RelativeTime.

(** The classes of a pattern lie within a set of characters. *)
Fixpoint chars_in (allowed : ascii -> bool) (r : Regex) : Prop :=
  match r with
  | Never | Eps => True
  | Class member => forall c, member c = true -> allowed c = true
  | Seq a b | Alt a b => chars_in allowed a /\ chars_in allowed b
  | Star a | Rep a _ _ => chars_in allowed a
  end.

(** The characters of the four patterns: letters, digits, and [-], [_]
    and [.]. *)
Definition address_char (c : ascii) : bool :=
  host_char c || Ascii.eqb "." c.

(** ** A reference platform

    An executable stand-in for the built-ins, on which the model can be run:
    a reader and a printer for the part of JSON without escapes, fractions
    and exponents, the comparison of strings by code units, and the
    coercions on numbers. *)
Module Reference.

Definition dquote : ascii := ascii_of_nat 34.

Local Open Scope char_scope.

Definition is_space (c : ascii) : bool :=
  let n := nat_of_ascii c in
  ((n =? 32) || (n =? 9) || (n =? 10) || (n =? 13))%nat.

Definition digit_of (c : ascii) : option Z :=
  let n := nat_of_ascii c in
  if ((48 <=? n) && (n <=? 57))%nat then Some (Z.of_nat n - 48) else None.

Fixpoint skip_space (l : list ascii) : list ascii :=
  match l with
  | c :: l' => if is_space c then skip_space l' else l
  | [] => []
  end.

(** The characters up to the closing quote. *)
Fixpoint read_string (l : list ascii) (acc : list ascii)
  : option (string * list ascii) :=
  match l with
  | [] => None
  | c :: l' =>
      if Ascii.eqb c dquote then Some (string_of_list_ascii (rev acc), l')
      else if Ascii.eqb c "\" then None
      else read_string l' (c :: acc)
  end.

Fixpoint read_digits (l : list ascii) (acc : Z) : Z * list ascii :=
  match l with
  | c :: l' =>
      match digit_of c with
      | Some d => read_digits l' (10 * acc + d)
      | None => (acc, l)
      end
  | [] => (acc, [])
  end.

Definition read_number (l : list ascii) : option (Z * list ascii) :=
  match l with
  | c :: l' =>
      match digit_of c with
      | Some d => Some (read_digits l' d)
      | None => None
      end
  | [] => None
  end.

(** A later member with the same key replaces the earlier one. *)
Fixpoint set_field (k : string) (v : JsVal) (fields : list (string * JsVal))
  : list (string * JsVal) :=
  match fields with
  | [] => [(k, v)]
  | (k0, v0) :: fields' =>
      if String.eqb k0 k then (k0, v) :: fields'
      else (k0, v0) :: set_field k v fields'
  end.

Definition expect (c : ascii) (l : list ascii) : option (list ascii) :=
  match skip_space l with
  | c0 :: l' => if Ascii.eqb c0 c then Some l' else None
  | [] => None
  end.

Fixpoint read_value (fuel : nat) (l : list ascii) : option (JsVal * list ascii) :=
  match fuel with
  | O => None
  | S fuel =>
      match skip_space l with
      | "n" :: "u" :: "l" :: "l" :: r => Some (Null, r)
      | "t" :: "r" :: "u" :: "e" :: r => Some (Bool true, r)
      | "f" :: "a" :: "l" :: "s" :: "e" :: r => Some (Bool false, r)
      | "[" :: r =>
          match expect "]" r with
          | Some r' => Some (Arr [], r')
          | None =>
              match read_items fuel r with
              | Some (items, r') => Some (Arr items, r')
              | None => None
              end
          end
      | "{" :: r =>
          match expect "}" r with
          | Some r' => Some (Obj [], r')
          | None =>
              match read_members fuel r [] with
              | Some (fields, r') => Some (Obj fields, r')
              | None => None
              end
          end
      | "-" :: r =>
          match read_number r with
          | Some (n, r') => Some (Num (- n), r')
          | None => None
          end
      | c :: r =>
          if Ascii.eqb c dquote then
            match read_string r [] with
            | Some (s, r') => Some (Str s, r')
            | None => None
            end
          else
            match read_number (c :: r) with
            | Some (n, r') => Some (Num n, r')
            | None => None
            end
      | [] => None
      end
  end
with read_items (fuel : nat) (l : list ascii) : option (list JsVal * list ascii) :=
  match fuel with
  | O => None
  | S fuel =>
      match read_value fuel l with
      | Some (v, r) =>
          match expect "]" r with
          | Some r' => Some ([v], r')
          | None =>
              match expect "," r with
              | Some r' =>
                  match read_items fuel r' with
                  | Some (items, r'') => Some (v :: items, r'')
                  | None => None
                  end
              | None => None
              end
          end
      | None => None
      end
  end
with read_members (fuel : nat) (l : list ascii) (acc : list (string * JsVal))
  : option (list (string * JsVal) * list ascii) :=
  match fuel with
  | O => None
  | S fuel =>
      match expect dquote l with
      | Some r =>
          match read_string r [] with
          | Some (k, r1) =>
              match expect ":" r1 with
              | Some r2 =>
                  match read_value fuel r2 with
                  | Some (v, r3) =>
                      let acc := set_field k v acc in
                      match expect "}" r3 with
                      | Some r4 => Some (acc, r4)
                      | None =>
                          match expect "," r3 with
                          | Some r4 => read_members fuel r4 acc
                          | None => None
                          end
                      end
                  | None => None
                  end
              | None => None
              end
          | None => None
          end
      | None => None
      end
  end.

Local Close Scope char_scope.
Local Open Scope string_scope.

(** A number followed by a fraction or an exponent is outside the part
    that is read. *)
Definition parse (text : string) : Except JsVal :=
  let l := list_ascii_of_string text in
  match read_value (S (List.length l)) l with
  | Some (v, r) =>
      match skip_space r with
      | [] => Ok v
      | _ :: _ => Throw (SyntaxError "Unexpected non-whitespace character after JSON")
      end
  | None => Throw (SyntaxError "Unexpected token in JSON")
  end.

Definition quoted (s : string) : string :=
  String dquote (s ++ String dquote "").

(** The text of a value, as a server would send it. *)
Fixpoint stringify (v : JsVal) : string :=
  match v with
  | Undefined | Null => "null"
  | Bool true => "true"
  | Bool false => "false"
  | Num n => pretty n
  | Str s => quoted s
  | Arr items =>
      "[" ++ (fix go (l : list JsVal) : string :=
                match l with
                | [] => ""
                | x :: l' =>
                    stringify x ++ match l' with [] => "" | _ :: _ => "," ++ go l' end
                end) items ++ "]"
  | Obj fields =>
      "{" ++ (fix go (l : list (string * JsVal)) : string :=
                match l with
                | [] => ""
                | (k, x) :: l' =>
                    quoted k ++ ":" ++ stringify x
                    ++ match l' with [] => "" | _ :: _ => "," ++ go l' end
                end) fields ++ "}"
  end.

Definition compare_code_units (a b : string) : Z :=
  match String.compare a b with
  | Lt => -1
  | Eq => 0
  | Gt => 1
  end.

(** ToNumber on the primitives that are not strings; a string, an array
    or an object is taken as NaN. *)
Definition to_number (v : JsVal) : JsNum :=
  match v with
  | Num n => Int n
  | Bool true => Int 1
  | Bool false | Null => Int 0
  | _ => NaN
  end.

(** [+] on numbers; any other pair is left [undefined]. *)
Definition plus (a b : JsVal) : JsVal :=
  match a, b with
  | Num x, Num y => Num (x + y)
  | _, _ => Undefined
  end.

Local Close Scope string_scope.

(** MD5 (RFC 1321) on bytes, rendered in lower-case hexadecimal. *)
Definition w32 (z : Z) : Z := z mod 2 ^ 32.

Definition rotl (x c : Z) : Z :=
  w32 (Z.lor (Z.shiftl x c) (Z.shiftr x (32 - c))).

Definition md5_K : list Z :=
  [0xd76aa478; 0xe8c7b756; 0x242070db; 0xc1bdceee; 0xf57c0faf; 0x4787c62a;
   0xa8304613; 0xfd469501; 0x698098d8; 0x8b44f7af; 0xffff5bb1; 0x895cd7be;
   0x6b901122; 0xfd987193; 0xa679438e; 0x49b40821; 0xf61e2562; 0xc040b340;
   0x265e5a51; 0xe9b6c7aa; 0xd62f105d; 0x02441453; 0xd8a1e681; 0xe7d3fbc8;
   0x21e1cde6; 0xc33707d6; 0xf4d50d87; 0x455a14ed; 0xa9e3e905; 0xfcefa3f8;
   0x676f02d9; 0x8d2a4c8a; 0xfffa3942; 0x8771f681; 0x6d9d6122; 0xfde5380c;
   0xa4beea44; 0x4bdecfa9; 0xf6bb4b60; 0xbebfbc70; 0x289b7ec6; 0xeaa127fa;
   0xd4ef3085; 0x04881d05; 0xd9d4d039; 0xe6db99e5; 0x1fa27cf8; 0xc4ac5665;
   0xf4292244; 0x432aff97; 0xab9423a7; 0xfc93a039; 0x655b59c3; 0x8f0ccc92;
   0xffeff47d; 0x85845dd1; 0x6fa87e4f; 0xfe2ce6e0; 0xa3014314; 0x4e0811a1;
   0xf7537e82; 0xbd3af235; 0x2ad7d2bb; 0xeb86d391].

Definition md5_s : list Z :=
  [7; 12; 17; 22; 7; 12; 17; 22; 7; 12; 17; 22; 7; 12; 17; 22;
   5; 9; 14; 20; 5; 9; 14; 20; 5; 9; 14; 20; 5; 9; 14; 20;
   4; 11; 16; 23; 4; 11; 16; 23; 4; 11; 16; 23; 4; 11; 16; 23;
   6; 10; 15; 21; 6; 10; 15; 21; 6; 10; 15; 21; 6; 10; 15; 21].

Fixpoint le_bytes (n : nat) (v : Z) : list Z :=
  match n with
  | O => []
  | S n => v mod 256 :: le_bytes n (v / 256)
  end.

Fixpoint le_word (bytes : list Z) : Z :=
  match bytes with
  | [] => 0
  | b :: bytes' => b + 256 * le_word bytes'
  end.

Definition md5_pad (msg : list Z) : list Z :=
  let len := List.length msg in
  let zeros := ((64 - (len + 9) mod 64) mod 64)%nat in
  msg ++ [0x80] ++ replicate zeros 0 ++ le_bytes 8 (8 * Z.of_nat len).

Definition md5_step (M : list Z) (st : Z * Z * Z * Z) (i : nat) : Z * Z * Z * Z :=
  let '(A, B, C, D) := st in
  let not32 x := Z.lxor x 0xffffffff in
  let '(F, g) :=
    if (i <? 16)%nat then (Z.lor (Z.land B C) (Z.land (not32 B) D), i)
    else if (i <? 32)%nat then
      (Z.lor (Z.land D B) (Z.land (not32 D) C), ((5 * i + 1) mod 16)%nat)
    else if (i <? 48)%nat then (Z.lxor B (Z.lxor C D), ((3 * i + 5) mod 16)%nat)
    else (Z.lxor C (Z.lor B (not32 D)), ((7 * i) mod 16)%nat) in
  let word := le_word (take 4 (drop (4 * g) M)) in
  let F := w32 (F + A + nth i md5_K 0 + word) in
  (D, w32 (B + rotl F (nth i md5_s 0)), B, C).

Definition md5_block (st : Z * Z * Z * Z) (M : list Z) : Z * Z * Z * Z :=
  let '(a0, b0, c0, d0) := st in
  let '(A, B, C, D) := fold_left (md5_step M) (seq 0 64) st in
  (w32 (a0 + A), w32 (b0 + B), w32 (c0 + C), w32 (d0 + D)).

Fixpoint md5_blocks (n : nat) (msg : list Z) (st : Z * Z * Z * Z) : Z * Z * Z * Z :=
  match n with
  | O => st
  | S n => md5_blocks n (drop 64 msg) (md5_block st (take 64 msg))
  end.

Definition hex_digit (d : Z) : ascii :=
  ascii_of_nat (Z.to_nat (if d <? 10 then 48 + d else 87 + d)).

Definition hex_byte (b : Z) : string :=
  String (hex_digit (b / 16)) (String (hex_digit (b mod 16)) "").

Definition md5 (text : string) : string :=
  let msg := md5_pad (bytes_of_string text) in
  let '(a, b, c, d) :=
    md5_blocks (List.length msg / 64) msg
      (0x67452301, 0xefcdab89, 0x98badcfe, 0x10325476) in
  String.concat ""
    (map hex_byte (le_bytes 4 a ++ le_bytes 4 b ++ le_bytes 4 c ++ le_bytes 4 d)).

#[export] Instance platform : Platform := {|
  JSON_parse := parse;
  md5_hex := md5;
  localeCompare := compare_code_units;
  ToNumber := to_number;
  js_plus := plus
|}.

End Reference.

(** ** The scenario of the specification

    A server at play.example.com:25565 that accepts the connection, answers
    the status request and closes. *)

(** What a server sends: packet 0 with the text of [v], length-prefixed. *)
Definition status_packet (v : JsVal) : Buffer :=
  let json := bytes_of_string (Reference.stringify v) in
  writePacket 0x00 (writeVarInt_bytes (Z.of_nat (length json)) ++ json).

Definition scenario_response : JsVal :=
  Obj [("players", Obj [("online", Num 5); ("max", Num 20)]);
       ("version", Obj [("name", Str "1.20.1"); ("protocol", Num 763)])].

Definition scenario_env (response : JsVal) : ProbeEnv :=
  {| pe_startTime := 1700000000000;
     pe_created := 1700000000002;
     pe_lookup := Some "203.0.113.7";
     pe_connectThrows := None;
     pe_events := [ev_connect 1700000000012;
                   ev_data 1700000000040 (status_packet response);
                   ev_close] |}.

(** ** Predicates of the statements *)

(** The properties set together with [online = true] are there. *)
Definition populated (r : ResponseData) : Prop :=
  rd_players r <> None /\ rd_version r <> Undefined /\ rd_protocol r <> Undefined
  /\ rd_description r <> Undefined /\ rd_latency r <> None /\ rd_ping r <> None.

(** What holds of a probe at every turn of the event loop. *)
Record probe_inv (p : Probe) : Prop := {
  (** the object says online only with the response's properties set *)
  inv_online : rd_online (responseData p) = true -> populated (responseData p);
  (** once resolved, the object carries an error *)
  inv_error : hasResolved p = true -> no_error (rd_error (responseData p)) = false;
  (** [hasResolved] is set exactly when [resolve] was called *)
  inv_promise : hasResolved p = true <-> promise p <> None;
  (** what [resolve] was called with is offline with an error *)
  inv_value : forall r, promise p = Some r ->
                rd_online r = false /\ no_error (rd_error r) = false;
  (** the timer is pending until the probe is resolved *)
  inv_timer : timeoutId p = false -> hasResolved p = true
}.

(** What the statements assume of the platform: ToNumber is the identity on
    numbers, [+] adds numbers, and [localeCompare] is a total preorder. *)
Class PlatformLaws (platform : Platform) : Prop := {
  ToNumber_Num : forall n, ToNumber (Num n) = Int n;
  js_plus_Num : forall a b, js_plus (Num a) (Num b) = Num (a + b);
  localeCompare_total : forall a b, 0 < localeCompare a b -> localeCompare b a <= 0;
  localeCompare_trans : forall a b c,
    localeCompare a b <= 0 -> localeCompare b c <= 0 -> localeCompare a c <= 0
}.

(** An online result carries a player count that is a number. *)
Definition numeric (s : ServerStatus) : Prop :=
  st_online s = true -> exists p n, st_players s = Some p /\ p_online p = Num n.

(** [s.players.online] as an integer. *)
Definition count (s : ServerStatus) : Z :=
  match st_players s with
  | Some p => match p_online p with Num n => n | _ => 0 end
  | None => 0
  end.

(** The number the comparator returns on results with numeric counts. *)
Definition compared {platform : Platform} (a b : ServerStatus) : Z :=
  if st_online a && negb (st_online b) then -1
  else if negb (st_online a) && st_online b then 1
  else if st_online a && st_online b then count b - count a
  else localeCompare (st_name a) (st_name b).

(** A result as the fleet lists it, for the examples. *)
Definition example_status (name : string) (online : bool) (players : Z) : ServerStatus :=
  {| st_id := IdStr "00000000"; st_name := name; st_address := "localhost";
     st_port := 25565; st_type := Some "java"%string; st_category := Some "未分类"%string;
     st_description := Some ""%string; st_online := online;
     st_error := if online then None else Some "连接超时"%string;
     st_lastUpdated := 0; st_ping := Some 1; st_latency := Some 2;
     st_version := Str "1.20.1"; st_protocol := Num 763;
     st_players := Some {| p_online := Num players; p_max := Num 20; p_sample := Arr [] |};
     st_favicon := Null |}.


(** The events whose handlers call [resolve]. *)
Definition is_terminal (ev : SocketEvent) : bool :=
  match ev with
  | ev_connect _ | ev_data _ _ => false
  | ev_error _ | ev_close | ev_timeout | ev_timer => true
  end.

(** * Properties *)

(** ** The 32-bit operators on small values *)

Lemma toInt32_small z : - 2 ^ 31 <= z < 2 ^ 31 -> toInt32 z = z.
Proof. intros H. unfold toInt32. rewrite Z.mod_small; lia. Qed.

Lemma toUint32_small z : 0 <= z < 2 ^ 32 -> toUint32 z = z.
Proof. intros H. unfold toUint32. apply Z.mod_small. lia. Qed.

Lemma toUint32_range z : 0 <= toUint32 z < 2 ^ 32.
Proof. unfold toUint32. apply Z.mod_pos_bound. lia. Qed.

Lemma js_and_127 v : js_and v 0x7F = toInt32 v mod 128.
Proof.
  unfold js_and. rewrite (toInt32_small 127) by lia.
  change 127 with (Z.ones 7). rewrite Z.land_ones by lia. reflexivity.
Qed.

Lemma js_and_127_range v : 0 <= js_and v 0x7F < 128.
Proof. rewrite js_and_127. apply Z.mod_pos_bound. lia. Qed.

Lemma js_ushr_7 v : js_ushr v 7 = toUint32 v / 128.
Proof.
  unfold js_ushr. change (toUint32 7 mod 32) with 7.
  rewrite Z.shiftr_div_pow2 by lia. reflexivity.
Qed.

Lemma js_ushr_7_range v : 0 <= js_ushr v 7 < 2 ^ 25.
Proof.
  rewrite js_ushr_7. pose proof (toUint32_range v).
  split; [apply Z.div_pos; lia | apply Z.div_lt_upper_bound; lia].
Qed.

(** A byte with the continuation bit set: what it carries and what it is. *)
Lemma continuation_byte x :
  0 <= x < 128 ->
  js_or x 0x80 = x + 128 /\ js_and (x + 128) 0x7F = x /\ js_and (x + 128) 0x80 <> 0.
Proof.
  intros Hx.
  assert (Hland : Z.land x 128 = 0).
  { rewrite <- (Z.mod_small x 128) by lia. change 128 with (2 ^ 7) at 1.
    rewrite <- Z.land_ones by lia. rewrite <- Z.land_assoc. apply Z.land_0_r. }
  assert (Hor : Z.lor x 128 = x + 128) by (symmetry; now apply Z.add_nocarry_lor).
  unfold js_or, js_and. rewrite !toInt32_small by lia. split; [exact Hor|].
  rewrite <- Hor. split.
  - rewrite Z.land_lor_distr_l. change (Z.land 128 127) with 0. rewrite Z.lor_0_r.
    change 127 with (Z.ones 7). rewrite Z.land_ones by lia. apply Z.mod_small. lia.
  - rewrite Z.land_lor_distr_l. change (Z.land 128 128) with 128.
    intros H. apply Z.lor_eq_0_iff in H. lia.
Qed.

Lemma final_byte x : 0 <= x < 128 -> js_and x 0x7F = x /\ js_and x 0x80 = 0.
Proof.
  intros Hx. unfold js_and. rewrite !toInt32_small by lia. split.
  - change 127 with (Z.ones 7). rewrite Z.land_ones by lia. apply Z.mod_small. lia.
  - rewrite <- (Z.mod_small x 128) by lia. change 128 with (2 ^ 7) at 1.
    rewrite <- Z.land_ones by lia. rewrite <- Z.land_assoc. apply Z.land_0_r.
Qed.

(** A seven-bit group placed above an accumulator that lies below it adds
    up with it; the sum is read as a signed 32-bit integer. *)
Lemma js_or_shl acc x s :
  0 <= s < 32 -> 0 <= acc < 2 ^ s -> 0 <= x < 128 -> acc + x * 2 ^ s < 2 ^ 32 ->
  js_or acc (js_shl x s) = toInt32 (acc + x * 2 ^ s).
Proof.
  intros Hs Hacc Hx Hlt.
  assert (Hp : 0 < 2 ^ s) by (apply Z.pow_pos_nonneg; lia).
  assert (Hxs : 0 <= x * 2 ^ s) by (apply Z.mul_nonneg_nonneg; lia).
  assert (Hs31 : 2 ^ s <= 2 ^ 31) by (apply Z.pow_le_mono_r; lia).
  assert (Hsplit : 2 ^ 32 = 2 ^ (32 - s) * 2 ^ s)
    by (rewrite <- Z.pow_add_r by lia; f_equal; lia).
  assert (Hsplit' : 2 ^ 31 = 2 ^ (31 - s) * 2 ^ s)
    by (rewrite <- Z.pow_add_r by lia; f_equal; lia).
  assert (Hdisjoint : forall y, Z.land acc (y * 2 ^ s) = 0).
  { intros y. apply Z.bits_inj'. intros i Hi. rewrite Z.land_spec, Z.bits_0.
    destruct (Z_lt_le_dec i s).
    - rewrite <- Z.shiftl_mul_pow2 by lia. rewrite Z.shiftl_spec_low by lia.
      apply andb_false_r.
    - rewrite <- (Z.mod_small acc (2 ^ s)) by lia.
      rewrite Z.mod_pow2_bits_high by lia. reflexivity. }
  unfold js_or, js_shl.
  rewrite (toUint32_small s) by lia. rewrite (Z.mod_small s 32) by lia.
  rewrite (toInt32_small x) by lia.
  rewrite Z.shiftl_mul_pow2 by lia.
  rewrite (toInt32_small acc) by lia.
  destruct (Z_lt_le_dec (x * 2 ^ s) (2 ^ 31)) as [Hlow|Hhigh].
  - rewrite !(toInt32_small (x * 2 ^ s)) by lia.
    assert (x < 2 ^ (31 - s)) by nia.
    rewrite toInt32_small by nia.
    symmetry. apply Z.add_nocarry_lor. apply Hdisjoint.
  - assert (Hwrap : forall z, 2 ^ 31 <= z < 2 ^ 32 -> toInt32 z = z - 2 ^ 32).
    { intros z Hz. unfold toInt32.
      replace (z + 2 ^ 31) with (z - 2 ^ 31 + 1 * 2 ^ 32) by lia.
      rewrite Z.mod_add by lia. rewrite Z.mod_small; lia. }
    rewrite (Hwrap (x * 2 ^ s)) by lia.
    rewrite (toInt32_small (x * 2 ^ s - 2 ^ 32)) by lia.
    rewrite (Hwrap (acc + x * 2 ^ s)) by lia.
    replace (acc + x * 2 ^ s - 2 ^ 32) with (acc + (x * 2 ^ s - 2 ^ 32)) by lia.
    symmetry. apply Z.add_nocarry_lor.
    replace (x * 2 ^ s - 2 ^ 32) with ((x - 2 ^ (32 - s)) * 2 ^ s) by lia.
    apply Hdisjoint.
Qed.

(** ** The decoder, one byte at a time *)

Lemma readVarInt_loop_some buffer result shift offset b :
  buffer !! offset = Some b ->
  readVarInt_loop buffer result shift offset =
    let result' := js_or result (js_shl (js_and b 0x7F) shift) in
    if js_and b 0x80 =? 0 then Ok (result', S offset)
    else readVarInt_loop buffer result' (shift + 7) (S offset).
Proof.
  intros Hb. funelim (readVarInt_loop buffer result shift offset); [|congruence].
  assert (b0 = b) by congruence. subst. reflexivity.
Qed.

Lemma readVarInt_loop_none buffer result shift offset :
  buffer !! offset = None ->
  readVarInt_loop buffer result shift offset =
    Throw (ERR_OUT_OF_RANGE "offset" (Z.of_nat offset)).
Proof.
  intros Hb. funelim (readVarInt_loop buffer result shift offset); [congruence|].
  reflexivity.
Qed.

(** ** The encoder *)

Lemma writeVarInt_bytes_last v :
  js_ushr v 7 = 0 -> writeVarInt_bytes v = [js_and v 0x7F].
Proof.
  intros H. rewrite writeVarInt_bytes_equation_1.
  destruct (Z.eq_dec _ _); [reflexivity|contradiction].
Qed.

Lemma writeVarInt_bytes_more v :
  js_ushr v 7 <> 0 ->
  writeVarInt_bytes v = js_or (js_and v 0x7F) 0x80 :: writeVarInt_bytes (js_ushr v 7).
Proof.
  intros H. rewrite writeVarInt_bytes_equation_1.
  destruct (Z.eq_dec _ _); [contradiction|reflexivity].
Qed.

(** On the unsigned view of a value the loop takes the low seven bits and
    divides by 128. *)
Lemma encoder_step v :
  0 <= v < 2 ^ 32 -> js_and v 0x7F = v mod 128 /\ js_ushr v 7 = v / 128.
Proof.
  intros Hv. rewrite js_and_127, js_ushr_7.
  rewrite toUint32_small by lia. split; [|reflexivity].
  unfold toInt32.
  destruct (Z_lt_le_dec v (2 ^ 31)).
  - rewrite (Z.mod_small (v + 2 ^ 31)) by lia. f_equal. lia.
  - replace (v + 2 ^ 31) with (v - 2 ^ 31 + 1 * 2 ^ 32) by lia.
    rewrite Z.mod_add by lia. rewrite (Z.mod_small (v - 2 ^ 31)) by lia.
    replace (v - 2 ^ 31 - 2 ^ 31) with (v + (- 2 ^ 25) * 128) by lia.
    apply Z.mod_add. lia.
Qed.

(** The bytes depend on the unsigned view only. *)
Lemma writeVarInt_bytes_unsigned v :
  writeVarInt_bytes v = writeVarInt_bytes (toUint32 v).
Proof.
  pose proof (toUint32_range v) as Hr.
  assert (Hand : js_and (toUint32 v) 0x7F = js_and v 0x7F).
  { rewrite !js_and_127. unfold toInt32, toUint32.
    rewrite Zplus_mod_idemp_l. reflexivity. }
  assert (Hushr : js_ushr (toUint32 v) 7 = js_ushr v 7).
  { rewrite !js_ushr_7. rewrite (toUint32_small (toUint32 v)) by lia. reflexivity. }
  destruct (Z.eq_dec (js_ushr v 7) 0) as [E|E].
  - rewrite (writeVarInt_bytes_last v E).
    rewrite (writeVarInt_bytes_last (toUint32 v)) by congruence. congruence.
  - rewrite (writeVarInt_bytes_more v E).
    rewrite (writeVarInt_bytes_more (toUint32 v)) by congruence. congruence.
Qed.

Lemma writeVarInt_bytes_length_bound (k : nat) v :
  toUint32 v < 2 ^ (7 * Z.of_nat k) -> (length (writeVarInt_bytes v) <= Nat.max 1 k)%nat.
Proof.
  revert v. induction k as [|k IH]; intros v Hv.
  - pose proof (toUint32_range v). change (2 ^ (7 * Z.of_nat 0)) with 1 in Hv.
    rewrite writeVarInt_bytes_last; [simpl; lia|].
    rewrite js_ushr_7. apply Z.div_small. lia.
  - destruct (Z.eq_dec (js_ushr v 7) 0) as [E|E].
    + rewrite writeVarInt_bytes_last by exact E. simpl; lia.
    + rewrite writeVarInt_bytes_more by exact E. cbn [length].
      pose proof (toUint32_range v) as Hr. pose proof (js_ushr_7_range v) as Hu.
      assert (Hk : toUint32 (js_ushr v 7) < 2 ^ (7 * Z.of_nat k)).
      { rewrite toUint32_small by lia. rewrite js_ushr_7.
        apply Z.div_lt_upper_bound; [lia|].
        replace (7 * Z.of_nat (S k)) with (7 + 7 * Z.of_nat k) in Hv by lia.
        rewrite Z.pow_add_r in Hv by lia. exact Hv. }
      specialize (IH _ Hk).
      destruct k as [|k]; [|lia].
      exfalso. apply E. change (2 ^ (7 * Z.of_nat 0)) with 1 in Hk.
      rewrite toUint32_small in Hk by lia. lia.
Qed.

(** No value takes more than five bytes. *)
Lemma writeVarInt_bytes_length v : (1 <= length (writeVarInt_bytes v) <= 5)%nat.
Proof.
  split.
  - destruct (Z.eq_dec (js_ushr v 7) 0) as [E|E];
      [rewrite writeVarInt_bytes_last | rewrite writeVarInt_bytes_more]; auto; simpl; lia.
  - apply (writeVarInt_bytes_length_bound 5). pose proof (toUint32_range v).
    change (2 ^ (7 * Z.of_nat 5)) with (2 ^ 35). lia.
Qed.

Lemma bits_decreases v : js_ushr v 7 <> 0 -> (bits (js_ushr v 7) < bits v)%nat.
Proof. intros H. bits_decrease. Qed.

(** ** Decoding what the encoder wrote *)

Lemma readVarInt_loop_encoded (k : nat) :
  forall v pre post acc s,
    (bits v <= k)%nat ->
    0 <= v -> 0 <= s -> 0 <= acc < 2 ^ s -> acc + v * 2 ^ s < 2 ^ 32 ->
    readVarInt_loop (pre ++ writeVarInt_bytes v ++ post) acc s (length pre)
    = Ok (toInt32 (acc + v * 2 ^ s),
          (length pre + length (writeVarInt_bytes v))%nat).
Proof.
  induction k as [k IH] using lt_wf_ind.
  intros v pre post acc s Hk Hv Hs Hacc Hlt.
  assert (Hp : 0 < 2 ^ s) by (apply Z.pow_pos_nonneg; lia).
  assert (Hv32 : 0 <= v < 2 ^ 32) by nia.
  destruct (encoder_step v Hv32) as [Hand Hushr].
  assert (Hm : 0 <= v mod 128 < 128) by (apply Z.mod_pos_bound; lia).
  pose proof (Z.div_mod v 128 ltac:(lia)) as Hdm.
  destruct (Z.eq_dec (js_ushr v 7) 0) as [E|E].
  - rewrite writeVarInt_bytes_last by exact E. rewrite Hand.
    rewrite Hushr in E. assert (v mod 128 = v) by lia.
    destruct (final_byte (v mod 128) Hm) as [F1 F2].
    rewrite (readVarInt_loop_some _ _ _ _ (v mod 128))
      by (apply list_lookup_middle; reflexivity).
    cbv zeta. rewrite F1, F2. cbn [Z.eqb length].
    destruct (Z.eq_dec v 0) as [->|Hnz].
    + replace (js_shl (0 mod 128) s) with 0.
      * unfold js_or. change (toInt32 0) with 0.
        rewrite Z.lor_0_r. repeat f_equal; lia.
      * unfold js_shl. change (toInt32 (0 mod 128)) with 0.
        rewrite Z.shiftl_0_l. reflexivity.
    + assert (s < 32).
      { destruct (Z_lt_le_dec s 32); [lia|].
        assert (2 ^ 32 <= 2 ^ s) by (apply Z.pow_le_mono_r; lia). nia. }
      rewrite js_or_shl by (try lia; nia). repeat f_equal; lia.
  - rewrite writeVarInt_bytes_more by exact E. rewrite Hand.
    destruct (continuation_byte (v mod 128) Hm) as (C1 & C2 & C3).
    rewrite C1.
    rewrite (readVarInt_loop_some _ _ _ _ (v mod 128 + 128))
      by (apply list_lookup_middle; reflexivity).
    cbv zeta. rewrite C2. apply Z.eqb_neq in C3. rewrite C3.
    rewrite Hushr in *.
    assert (Hq : 0 < v / 128) by (assert (0 <= v / 128) by (apply Z.div_pos; lia); lia).
    assert (Hs32 : s + 7 < 32).
    { destruct (Z_lt_le_dec (s + 7) 32); [lia|].
      assert (2 ^ 32 <= 2 ^ (s + 7)) by (apply Z.pow_le_mono_r; lia).
      rewrite Z.pow_add_r in * by lia. nia. }
    assert (Hpow : 2 ^ (s + 7) = 2 ^ s * 128) by (rewrite Z.pow_add_r by lia; reflexivity).
    assert (Hs31 : 2 ^ (s + 7) <= 2 ^ 31) by (apply Z.pow_le_mono_r; lia).
    rewrite js_or_shl by (try lia; nia).
    rewrite (toInt32_small (acc + v mod 128 * 2 ^ s)) by nia.
    replace (pre ++ (v mod 128 + 128 :: writeVarInt_bytes (v / 128)) ++ post)
      with ((pre ++ [v mod 128 + 128]) ++ writeVarInt_bytes (v / 128) ++ post)
      by (rewrite <- app_assoc; reflexivity).
    replace (S (length pre)) with (length (pre ++ [v mod 128 + 128]))
      by (rewrite length_app; simpl; lia).
    assert (Hbits : (bits (v / 128) < bits v)%nat).
    { rewrite <- Hushr. apply bits_decreases. rewrite Hushr. lia. }
    rewrite (IH (bits (v / 128))); try lia.
    + rewrite length_app, Hpow. cbn [length]. f_equal. f_equal; [f_equal; nia | lia].
    + rewrite Hpow. nia.
Qed.

(** Decoding gives any signed 32-bit value back. *)
Lemma readVarInt_encoded v pre post :
  - 2 ^ 31 <= v < 2 ^ 31 ->
  readVarInt (pre ++ writeVarInt_bytes v ++ post) (length pre)
  = Ok (v, (length pre + length (writeVarInt_bytes v))%nat).
Proof.
  intros Hv. unfold readVarInt.
  pose proof (toUint32_range v) as Hr.
  rewrite (writeVarInt_bytes_unsigned v).
  rewrite (readVarInt_loop_encoded (bits (toUint32 v))); try lia.
  f_equal. f_equal. change (2 ^ 0) with 1.
  replace (0 + toUint32 v * 1) with (toUint32 v) by lia.
  unfold toInt32, toUint32. rewrite Zplus_mod_idemp_l.
  rewrite Z.mod_small; lia.
Qed.

(** ** Writing in place *)

Lemma writeUInt8_ok (buffer : Buffer) value offset :
  0 <= value <= 255 -> (offset < length buffer)%nat ->
  writeUInt8 buffer value offset = Ok (<[offset := value]> buffer).
Proof.
  intros Hv Ho. unfold writeUInt8.
  replace ((0 <=? value) && (value <=? 255)) with true
    by (symmetry; apply andb_true_intro; split; apply Z.leb_le; lia).
  cbn [negb]. destruct (decide _); [reflexivity|lia].
Qed.

(** The in-place encoder leaves the bytes of [writeVarInt_bytes] at
    [offset] and nothing else changed, when they fit. *)
Lemma writeVarInt_splice (k : nat) :
  forall v (buffer : Buffer) offset,
    (bits v <= k)%nat ->
    (offset + length (writeVarInt_bytes v) <= length buffer)%nat ->
    writeVarInt buffer v offset
    = Ok (take offset buffer ++ writeVarInt_bytes v
            ++ drop (offset + length (writeVarInt_bytes v)) buffer,
          (offset + length (writeVarInt_bytes v))%nat).
Proof.
  induction k as [k IH] using lt_wf_ind. intros v buffer offset Hk Hfit.
  pose proof (js_and_127_range v) as Hb.
  rewrite writeVarInt_equation_1.
  destruct (Z.eq_dec (js_ushr v 7) 0) as [E|E]; cbn.
  - rewrite writeVarInt_bytes_last in * by exact E. cbn [length] in *.
    rewrite writeUInt8_ok by lia.
    rewrite insert_take_drop by lia.
    rewrite Nat.add_1_r. reflexivity.
  - rewrite writeVarInt_bytes_more in * by exact E. cbn [length] in *.
    destruct (continuation_byte _ Hb) as (C1 & _). rewrite C1 in *.
    rewrite writeUInt8_ok by lia.
    pose proof (bits_decreases v E) as Hbits.
    rewrite (IH (bits (js_ushr v 7))); try lia.
    + rewrite drop_insert_lt by lia.
      rewrite (take_S_r _ _ (js_and v 127 + 128))
        by (apply list_lookup_insert_eq; lia).
      rewrite take_insert_ge by lia.
      rewrite <- app_assoc, Nat.add_succ_r. reflexivity.
    + rewrite length_insert. lia.
Qed.

(** C6.  VarInt round trip: for every integer [n] with [0 <= n <= 2^31 - 1],
    decoding the bytes the encoder produces gives [n] back and stops right
    after them.  This holds for the encoder of the connect handler, read
    from offset 0, and for the top-level encoder writing in place at any
    offset of a buffer with five bytes of room, read from that offset. *)
Theorem varint_roundtrip (n : Z) :
  0 <= n <= 2 ^ 31 - 1 ->
  readVarInt (writeVarInt_bytes n) 0 = Ok (n, length (writeVarInt_bytes n))
  /\ forall (buffer : Buffer) (offset : nat),
       (offset + 5 <= length buffer)%nat ->
       exists buffer' offset',
         writeVarInt buffer n offset = Ok (buffer', offset')
         /\ readVarInt buffer' offset = Ok (n, offset').
Proof.
  intros Hn. split.
  - pose proof (readVarInt_encoded n [] [] ltac:(lia)) as H.
    rewrite app_nil_r in H. exact H.
  - intros buffer offset Hroom.
    pose proof (writeVarInt_bytes_length n) as Hlen.
    eexists _, _. split.
    + apply (writeVarInt_splice (bits n)); lia.
    + pose proof (readVarInt_encoded n (take offset buffer)
                    (drop (offset + length (writeVarInt_bytes n)) buffer)
                    ltac:(lia)) as H.
      rewrite length_take in H.
      rewrite Nat.min_l in H by lia. exact H.
Qed.

Lemma varint_roundtrip_witness :
  0 <= 2147483647 <= 2 ^ 31 - 1
  /\ readVarInt (writeVarInt_bytes 2147483647) 0
     = Ok (2147483647, length (writeVarInt_bytes 2147483647)).
Proof.
  split; [lia | apply (varint_roundtrip 2147483647); lia].
Defined.

(** ** Reading past the end *)

Lemma readVarInt_loop_truncated (k : nat) :
  forall (buffer : Buffer) result shift offset,
    (length buffer - offset <= k)%nat ->
    Forall (fun b => js_and b 0x80 <> 0) (drop offset buffer) ->
    readVarInt_loop buffer result shift offset
    = Throw (ERR_OUT_OF_RANGE "offset" (Z.of_nat (Nat.max offset (length buffer)))).
Proof.
  induction k as [|k IH]; intros buffer result shift offset Hk Hall.
  - rewrite readVarInt_loop_none by (apply lookup_ge_None; lia).
    rewrite Nat.max_l by lia. reflexivity.
  - destruct (buffer !! offset) as [b|] eqn:Hb.
    + pose proof (lookup_lt_Some _ _ _ Hb) as Hlt.
      rewrite (readVarInt_loop_some _ _ _ _ b Hb). cbv zeta.
      rewrite (drop_S _ b _ Hb) in Hall. inversion Hall as [|? ? Hhigh Hrest]; subst.
      apply Z.eqb_neq in Hhigh. rewrite Hhigh.
      rewrite IH by (try lia; exact Hrest).
      rewrite !Nat.max_r by lia. reflexivity.
    + rewrite readVarInt_loop_none by exact Hb.
      apply lookup_ge_None in Hb. rewrite Nat.max_l by lia. reflexivity.
Qed.

Lemma readVarInt_loop_errors (buffer : Buffer) result shift offset e :
  readVarInt_loop buffer result shift offset = Throw e ->
  exists received, e = ERR_OUT_OF_RANGE "offset" received.
Proof.
  funelim (readVarInt_loop buffer result shift offset).
  - cbv zeta. destruct (_ =? 0); [discriminate|]. intros Hrec.
    match goal with IH : context [_ -> exists _, _] |- _ => eapply IH; eauto end.
  - intros [= <-]. eauto.
Qed.

Section ParseResponse.
Context {platform : Platform}.

(** The errors of [parseResponse]: the range error of a read past the end,
    the error for a packet that is not the status response, or the error
    wrapped around what [JSON.parse] threw. *)
Lemma parseResponse_errors (buffer : Buffer) (e : JsError) :
  parseResponse buffer = Throw e ->
  (exists received, e = ERR_OUT_OF_RANGE "offset" received)
  \/ e = Error "无效的数据包ID"
  \/ exists err, e = Error ("JSON解析失败: " ++ message err).
Proof.
  assert (Hread : forall b o e', readVarInt b o = Throw e' ->
                    exists received, e' = ERR_OUT_OF_RANGE "offset" received)
    by (intros b o e'; apply readVarInt_loop_errors).
  unfold parseResponse.
  destruct (readVarInt buffer 0) as [[len o1]|e1] eqn:R1; cbn.
  2:{ intros [= <-]. left. eauto. }
  destruct (readVarInt buffer o1) as [[packetId o2]|e2] eqn:R2; cbn.
  2:{ intros [= <-]. left. eauto. }
  destruct (packetId =? 0); cbn.
  2:{ intros [= <-]. right. left. reflexivity. }
  destruct (readVarInt buffer o2) as [[jsonLength o3]|e3] eqn:R3; cbn.
  2:{ intros [= <-]. left. eauto. }
  destruct (JSON_parse _) as [v|err]; [discriminate|].
  intros [= <-]. right. right. eauto.
Qed.

(** C8.  A buffer that ends before a VarInt terminates (from [offset] on
    every byte has its high bit set, or there is no byte) makes [readVarInt]
    throw the range error of the bounds-checked read, at the first index
    past the end; [parseResponse] on a buffer that ends inside its first
    VarInt throws that same error.  It is told apart from a malformed
    response, whose errors are the two [Error]s of [parseResponse]. *)
Theorem readVarInt_truncated (buffer : Buffer) (offset : nat) :
  Forall (fun b => js_and b 0x80 <> 0) (drop offset buffer) ->
  let need_more :=
    ERR_OUT_OF_RANGE "offset" (Z.of_nat (Nat.max offset (length buffer))) in
  readVarInt buffer offset = Throw need_more
  /\ (offset = 0%nat -> parseResponse buffer = Throw need_more)
  /\ (forall m, need_more <> Error m)
  /\ (forall other e, parseResponse other = Throw e ->
        (exists received, e = ERR_OUT_OF_RANGE "offset" received)
        \/ e = Error "无效的数据包ID"
        \/ exists err, e = Error ("JSON解析失败: " ++ message err)).
Proof.
  intros Hall need_more.
  assert (Hr : readVarInt buffer offset = Throw need_more).
  { unfold readVarInt. apply (readVarInt_loop_truncated (length buffer - offset)); auto. }
  split; [exact Hr|]. split; [|split].
  - intros ->. unfold parseResponse. rewrite Hr. reflexivity.
  - intros m. discriminate.
  - apply parseResponse_errors.
Qed.

End ParseResponse.

Lemma readVarInt_truncated_witness :
  Forall (fun b => js_and b 0x80 <> 0) (drop 0 [0x80; 0xFF])
  /\ readVarInt [0x80; 0xFF] 0 = Throw (ERR_OUT_OF_RANGE "offset" 2).
Proof.
  assert (H : Forall (fun b => js_and b 0x80 <> 0) (drop 0 [0x80; 0xFF])).
  { repeat constructor; vm_compute; discriminate. }
  split; [exact H |].
  exact (proj1 (readVarInt_truncated (platform := Reference.platform) [0x80; 0xFF] 0 H)).
Defined.

(** ** Framing *)

Section Framing.
Context {platform : Platform}.

(** C7, as the code has it.  For every packet id that is a signed 32-bit
    integer and every payload (the whole packet shorter than 2^31 bytes),
    [writePacket] yields
    VarInt(total length), then VarInt(packetId), then the payload; reading two
    VarInts from offset 0 of the frame gives the total length and the packet
    id back, and what follows them is the payload.  [parseResponse] itself
    accepts packet id 0 only: on any other id it throws, and on id 0 with a
    payload made of VarInt(length of the JSON bytes) and those bytes it
    returns what [JSON.parse] makes of them. *)
Theorem frame_envelope (packetId : Z) (payload : Buffer) :
  - 2 ^ 31 <= packetId < 2 ^ 31 ->
  Z.of_nat (length (writeVarInt_bytes packetId ++ payload)) < 2 ^ 31 ->
  let total := Z.of_nat (length (writeVarInt_bytes packetId ++ payload)) in
  let frame := writePacket packetId payload in
  frame = writeVarInt_bytes total ++ writeVarInt_bytes packetId ++ payload
  /\ (exists o1 o2,
        readVarInt frame 0 = Ok (total, o1)
        /\ readVarInt frame o1 = Ok (packetId, o2)
        /\ drop o2 frame = payload)
  /\ (packetId <> 0 -> parseResponse frame = Throw (Error "无效的数据包ID"))
  /\ (packetId = 0 ->
      forall json : Buffer,
        Z.of_nat (length json) < 2 ^ 31 ->
        payload = writeVarInt_bytes (Z.of_nat (length json)) ++ json ->
        parseResponse frame =
          match JSON_parse (string_of_bytes json) with
          | Ok v => Ok v
          | Throw err => Throw (Error ("JSON解析失败: " ++ message err))
          end).
Proof.
  intros Hid Hlen total frame.
  set (L := writeVarInt_bytes total). set (I := writeVarInt_bytes packetId).
  assert (Hframe : frame = L ++ I ++ payload) by reflexivity.
  assert (Htotal : 0 <= total < 2 ^ 31) by (unfold total; lia).
  assert (R1 : readVarInt frame 0 = Ok (total, length L)).
  { rewrite Hframe. apply (readVarInt_encoded total [] (I ++ payload)). lia. }
  assert (R2 : readVarInt frame (length L) = Ok (packetId, (length L + length I)%nat)).
  { rewrite Hframe. apply (readVarInt_encoded packetId L payload Hid). }
  split; [exact Hframe|]. split; [|split].
  - exists (length L), (length L + length I)%nat. repeat split; auto.
    rewrite Hframe, app_assoc. apply drop_app_length'. rewrite length_app. reflexivity.
  - intros Hnz. unfold parseResponse. rewrite R1. cbn [bindE]. rewrite R2. cbn [bindE].
    apply Z.eqb_neq in Hnz. rewrite Hnz. reflexivity.
  - intros Hz json Hjson Hpayload. unfold parseResponse.
    rewrite R1. cbn [bindE]. rewrite R2. cbn [bindE].
    apply Z.eqb_eq in Hz. rewrite Hz. cbn [negb].
    set (J := writeVarInt_bytes (Z.of_nat (length json))) in *.
    assert (Hframe' : frame = (L ++ I) ++ J ++ json)
      by (rewrite Hframe, Hpayload, <- app_assoc; reflexivity).
    assert (R3 : readVarInt frame (length L + length I)
                 = Ok (Z.of_nat (length json), (length L + length I + length J)%nat)).
    { rewrite Hframe', <- length_app.
      apply (readVarInt_encoded _ (L ++ I) json). lia. }
    rewrite R3. cbn [bindE].
    replace (Buffer_toString frame (length L + length I + length J)
               (Z.of_nat (length L + length I + length J) + Z.of_nat (length json)))
      with (string_of_bytes json); [reflexivity|].
    unfold Buffer_toString. f_equal.
    assert (Hlenf : length frame = (length L + length I + length J + length json)%nat)
      by (rewrite Hframe', !length_app; lia).
    rewrite Hlenf.
    destruct (Z.gtb_spec
                (Z.of_nat (length L + length I + length J) + Z.of_nat (length json))
                (Z.of_nat (length L + length I + length J + length json))) as [Hgt|_];
      [lia|].
    replace (Z.to_nat _) with (length json) by lia.
    rewrite Hframe', app_assoc.
    rewrite drop_app_length' by (rewrite !length_app; lia).
    symmetry. apply firstn_all.
Qed.

End Framing.

Lemma frame_envelope_witness :
  - 2 ^ 31 <= 0 < 2 ^ 31
  /\ writePacket 0 [2; 123; 125] = [4; 0; 2; 123; 125]
  /\ parseResponse (platform := Reference.platform) (writePacket 0 [2; 123; 125])
     = Ok (Obj []).
Proof.
  split; [lia|].
  pose proof (frame_envelope (platform := Reference.platform) 0 [2; 123; 125]
                ltac:(lia) ltac:(vm_compute; reflexivity)) as (Hf & _ & _ & Hparse).
  split; [exact Hf|].
  exact (Hparse eq_refl [123; 125] ltac:(vm_compute; reflexivity) eq_refl).
Defined.

(** C7 as stated fails.  A frame whose packet id is not 0 is not parsed back
    into its id and payload: [parseResponse] throws.  And a packet id outside
    the signed 32-bit integers is not even written as itself: 2^32 is framed
    as 0. *)
Lemma frame_roundtrip_counterexample :
  parseResponse (platform := Reference.platform) (writePacket 1 [2; 123; 125])
  = Throw (Error "无效的数据包ID")
  /\ (~ exists v,
        parseResponse (platform := Reference.platform) (writePacket 1 [2; 123; 125])
        = Ok v)
  /\ writePacket 4294967296 [2; 123; 125] = [4; 0; 2; 123; 125]
  /\ readVarInt (writePacket 4294967296 [2; 123; 125]) 1 = Ok (0, 2%nat).
Proof.
  assert (H : parseResponse (platform := Reference.platform) (writePacket 1 [2; 123; 125])
              = Throw (Error "无效的数据包ID")) by (vm_compute; reflexivity).
  split; [exact H|]. split; [|split; vm_compute; reflexivity].
  intros [v Hv]. rewrite H in Hv. discriminate.
Qed.

(** ** The probe *)

Section ProbeFacts.
Context {platform : Platform}.
Variables (host : string) (port : Z) (name : string) (startTime : Z).

Local Abbreviation step := (step host port startTime).
Local Abbreviation run := (run host port startTime).

(** [a || b] is defined when [b] is. *)
Lemma js_oror_defined a b : b <> Undefined -> js_oror a b <> Undefined.
Proof.
  intros Hb. unfold js_oror. destruct (truthy a) eqn:Ha; [|exact Hb].
  intros ->. discriminate.
Qed.

Ltac inv_facts :=
  cbn in *; intros;
  repeat match goal with
         | H : Some _ = Some _ |- _ => injection H as H; subst
         | |- _ <-> _ => split; intros
         | |- _ /\ _ => split
         end;
  cbn in *; try discriminate; try congruence; try reflexivity; auto;
  unfold populated in *; cbn in *;
  try match goal with
      | Hv : forall r, promise _ = Some r -> _, H : promise _ = Some ?r |- _ =>
          destruct (Hv r H); clear Hv
      end;
  try solve [ intuition (try discriminate; try congruence; eauto) ].

Lemma probe_inv_start lookup created connectThrows :
  probe_inv (start host port name lookup created connectThrows).
Proof.
  unfold start. destruct connectThrows as [msg|]; split; inv_facts.
Qed.

Lemma probe_inv_step p ev : probe_inv p -> probe_inv (step p ev).
Proof.
  intros Hinv. pose proof Hinv as [Ho He Hp Hv Ht].
  destruct ev as [now|now chunk|msg| | |]; cbn.
  - (* connect *)
    unfold on_connect. destruct (createHandshakePacket host port); split; inv_facts.
  - (* data *)
    unfold on_data.
    destruct (parseResponse chunk) as [response|err].
    + destruct (truthy response && truthy (getProp response "players"));
        split; inv_facts.
      unfold populated; cbn. repeat split; try discriminate;
        apply js_oror_defined; discriminate.
    + split; inv_facts.
  - (* error *)
    unfold on_error. destruct (hasResolved p) eqn:Hr; cbn; [exact Hinv|].
    assert (Hnone : promise p = None) by (destruct (promise p); [|reflexivity];
      exfalso; assert (false = true) by (apply Hp; discriminate); discriminate).
    split; rewrite ?Hnone; inv_facts.
  - (* close *)
    unfold on_close. destruct (hasResolved p) eqn:Hr; cbn; [exact Hinv|].
    assert (Hnone : promise p = None) by (destruct (promise p); [|reflexivity];
      exfalso; assert (false = true) by (apply Hp; discriminate); discriminate).
    destruct (no_error (rd_error (responseData p))) eqn:Hne; split; rewrite ?Hnone; inv_facts.
  - (* timeout *)
    unfold on_deadline. destruct (hasResolved p) eqn:Hr; cbn; [exact Hinv|].
    assert (Hnone : promise p = None) by (destruct (promise p); [|reflexivity];
      exfalso; assert (false = true) by (apply Hp; discriminate); discriminate).
    split; rewrite ?Hnone; inv_facts.
  - (* timer *)
    destruct (timeoutId p) eqn:Htid; [|exact Hinv].
    unfold on_deadline. destruct (hasResolved p) eqn:Hr; cbn.
    + split; inv_facts.
    + assert (Hnone : promise p = None) by (destruct (promise p); [|reflexivity];
        exfalso; assert (false = true) by (apply Hp; discriminate); discriminate).
      split; rewrite ?Hnone; inv_facts.
Qed.

Lemma probe_inv_run p events : probe_inv p -> probe_inv (run p events).
Proof.
  revert p. induction events as [|ev events IH]; intros p Hp; [exact Hp|].
  cbn. apply IH. now apply probe_inv_step.
Qed.

(** Only the first call of [resolve] counts. *)
Lemma promise_kept p ev r : promise p = Some r -> promise (step p ev) = Some r.
Proof.
  intros Hr. destruct ev; cbn;
    unfold on_connect, on_data, on_error, on_close, on_deadline;
    repeat match goal with
           | |- context [match ?x with _ => _ end] => destruct x; cbn
           end; rewrite ?Hr; auto.
Qed.

Lemma promise_kept_run p events r :
  promise p = Some r -> promise (run p events) = Some r.
Proof.
  revert p. induction events as [|ev events IH]; intros p Hr; [exact Hr|].
  cbn. apply IH. now apply promise_kept.
Qed.

(** The timer's callback leaves the probe resolved. *)
Lemma timer_resolves p :
  probe_inv p -> exists r, promise (step p ev_timer) = Some r.
Proof.
  intros [_ _ Hp _ Ht]. cbn. destruct (timeoutId p) eqn:Htid.
  - unfold on_deadline. destruct (hasResolved p) eqn:Hr; cbn.
    + destruct (promise p) as [r|]; [eauto|]. exfalso. now apply Hp.
    + destruct (promise p) as [r|]; cbn; eauto.
  - specialize (Ht eq_refl). destruct (promise p) as [r|]; [eauto|].
    exfalso. now apply Hp.
Qed.

End ProbeFacts.

Section ProbeOutcome.
Context {platform : Platform}.

Lemma settled_inv host port name env : probe_inv (settled host port name env).
Proof. unfold settled. apply probe_inv_run, probe_inv_start. Qed.

Lemma settled_resolved host port name env :
  exists r, promise (settled host port name env) = Some r.
Proof.
  unfold settled, run. rewrite fold_left_app. cbn [fold_left].
  apply timer_resolves. apply probe_inv_run, probe_inv_start.
Qed.

(** Whatever the socket does, the promise is resolved with an offline
    result. *)
Lemma queryMinecraftServer_offline host port name env r :
  queryMinecraftServer host port name env = Some r ->
  rd_online r = false /\ no_error (rd_error r) = false.
Proof. unfold queryMinecraftServer. apply settled_inv. Qed.

(** C2.  For every target and every sequence of socket and timer events,
    the probe resolves, and with a result that is either online with the
    properties of the response set, or offline with an error that is not
    null: never offline with a null error, never online without the player
    counts.  The first resolution stands whatever comes later, and the same
    holds of the resolved object as later handlers leave it. *)
Theorem probe_outcome (host : string) (port : option Z) (name : string)
    (env : ProbeEnv) :
  exists r,
    queryMinecraftServer host port name env = Some r
    /\ ((rd_online r = true /\ populated r)
        \/ (rd_online r = false /\ rd_error r <> None))
    /\ ~ (rd_online r = false /\ rd_error r = None)
    /\ ~ (rd_online r = true /\ rd_players r = None)
    /\ forall later,
         let p := run host (default 25565 port) (pe_startTime env)
                    (settled host (default 25565 port) name env) later in
         promise p = Some r
         /\ (rd_online (responseData p) = true -> populated (responseData p))
         /\ (rd_online (responseData p) = false -> rd_error (responseData p) <> None).
Proof.
  unfold queryMinecraftServer.
  cbv zeta. set (port' := default 25565 port).
  destruct (settled_resolved host port' name env) as [r Hr].
  pose proof (settled_inv host port' name env) as Hinv.
  destruct (inv_value _ Hinv r Hr) as [Hoff Herr].
  assert (Hnn : rd_error r <> None) by (destruct (rd_error r); [discriminate|discriminate]).
  exists r. split; [exact Hr|]. split; [right; auto|].
  split; [intros [_ H]; contradiction|].
  split; [intros [H _]; congruence|].
  intros later. set (p := run host port' (pe_startTime env) _ later).
  assert (Hp : promise p = Some r) by (apply promise_kept_run; exact Hr).
  pose proof (probe_inv_run host port' (pe_startTime env) _ later Hinv) as Hinv'.
  fold p in Hinv'.
  split; [exact Hp|]. split; [apply Hinv'|].
  intros _. assert (Hres : hasResolved p = true) by (apply Hinv'; congruence).
  pose proof (inv_error _ Hinv' Hres) as He.
  destruct (rd_error (responseData p)); [discriminate|discriminate].
Qed.

End ProbeOutcome.

(** ** A response that is parsed *)

Section DataHandler.
Context {platform : Platform}.
Variables (host : string) (port : Z) (name : string) (startTime : Z).

Local Abbreviation step := (step host port startTime).
Local Abbreviation run := (run host port startTime).

(** The data handler on a status with players: the object is marked online
    with the counts of the response, and the promise is left as it was. *)
Lemma on_data_players p now chunk response :
  parseResponse chunk = Ok response ->
  truthy (getProp response "players") = true ->
  let p' := step p (ev_data now chunk) in
  rd_online (responseData p') = true
  /\ rd_players (responseData p')
     = Some {| p_online := js_oror (optProp (getProp response "players") "online") (Num 0);
               p_max := js_oror (optProp (getProp response "players") "max") (Num 0);
               p_sample := js_oror (optProp (getProp response "players") "sample") (Arr []) |}
  /\ promise p' = promise p /\ hasResolved p' = hasResolved p.
Proof.
  intros Hparse Hplayers. cbn. unfold on_data. rewrite Hparse.
  assert (Hresp : truthy response = true).
  { destruct response; try discriminate; reflexivity. }
  rewrite Hresp, Hplayers. cbn. auto.
Qed.

(** The close handler resolves an unresolved probe offline, whatever the
    data handler has set. *)
Lemma on_close_offline p :
  hasResolved p = false -> promise p = None ->
  exists r, promise (step p ev_close) = Some r
            /\ rd_online r = false
            /\ rd_error r = Some (if no_error (rd_error (responseData p))
                                  then "连接关闭"%string
                                  else default ""%string (rd_error (responseData p)))
            /\ rd_players r = rd_players (responseData p).
Proof.
  intros Hr Hp. cbn. unfold on_close. rewrite Hr, Hp. cbn.
  eexists. split; [reflexivity|]. cbn.
  destruct (no_error (rd_error (responseData p))) eqn:E; cbn; auto.
  destruct (rd_error (responseData p)); [auto|discriminate].
Qed.

(** C10.  A response whose JSON parses and has no top-level [players]: the
    data handler changes nothing in [responseData] (no error, nothing
    online) and does not resolve; it only ends the socket.  On an unresolved
    probe without an error so far, the close that follows resolves it with
    [online = false] and the error of a closed connection, which is not the
    error of a failed parse.  So does the run connect, data, close. *)
Theorem missing_players_is_connection_closed (chunk : Buffer) (response : JsVal) :
  parseResponse chunk = Ok response ->
  getProp response "players" = Undefined ->
  (forall p now,
     let p' := step p (ev_data now chunk) in
     responseData p' = responseData p
     /\ hasResolved p' = hasResolved p
     /\ promise p' = promise p
     /\ socket p' = socket p ++ [end_]
     /\ (hasResolved p = false -> promise p = None ->
         rd_error (responseData p) = None ->
         exists r, promise (step p' ev_close) = Some r
                   /\ rd_online r = false
                   /\ rd_error r = Some "连接关闭"
                   /\ forall err : JsError,
                        rd_error r <> Some ("解析响应失败: " ++ message err)%string))
  /\ forall lookup created t1 t2,
       let p0 := start host port name lookup created None in
       promise (run p0 [ev_connect t1; ev_data t2 chunk]) = None
       /\ exists r, promise (run p0 [ev_connect t1; ev_data t2 chunk; ev_close]) = Some r
                    /\ rd_online r = false
                    /\ rd_error r = Some "连接关闭".
Proof.
  intros Hparse Hplayers.
  assert (Hdata : forall p now,
            step p (ev_data now chunk)
            = {| responseData := responseData p; hasResolved := hasResolved p;
                 timeoutId := timeoutId p; promise := promise p;
                 socket := socket p ++ [end_] |}).
  { intros p now. cbn. unfold on_data. rewrite Hparse, Hplayers. cbn.
    rewrite andb_false_r. reflexivity. }
  split.
  - intros p now p'. subst p'. rewrite Hdata. cbn. repeat split.
    intros Hr Hp He. unfold on_close. cbn. rewrite Hr, Hp, He. cbn.
    eexists. repeat split. intros err. cbn. discriminate.
  - intros lookup created t1 t2 p0. cbn [run fold_left]. rewrite !Hdata.
    cbn. unfold on_connect. destruct (createHandshakePacket host port); cbn;
      (split; [reflexivity|]); unfold on_close; cbn; eauto.
Qed.

End DataHandler.

Lemma missing_players_is_connection_closed_witness :
  let response := Obj [("version", Obj [("name", Str "1.20.1"); ("protocol", Num 763)])] in
  parseResponse (platform := Reference.platform) (status_packet response) = Ok response
  /\ getProp response "players" = Undefined
  /\ exists r,
       queryMinecraftServer (platform := Reference.platform)
         "play.example.com" (Some 25565) "Example" (scenario_env response) = Some r
       /\ rd_online r = false /\ rd_error r = Some "连接关闭".
Proof.
  intros response.
  assert (H1 : parseResponse (platform := Reference.platform) (status_packet response)
               = Ok response) by (vm_compute; reflexivity).
  assert (H2 : getProp response "players" = Undefined) by reflexivity.
  split; [exact H1|]. split; [exact H2|].
  destruct (missing_players_is_connection_closed (platform := Reference.platform)
              "play.example.com" 25565 "Example" 1700000000000 _ _ H1 H2) as [_ Hrun].
  destruct (Hrun (Some "203.0.113.7"%string) 1700000000002 1700000000012 1700000000040)
    as [_ (r & Hr & Hoff & Herr)].
  exists r. split; [|auto].
  unfold queryMinecraftServer, settled. cbn [default scenario_env pe_events pe_startTime
    pe_created pe_lookup pe_connectThrows].
  unfold run. rewrite fold_left_app. apply promise_kept. exact Hr.
Defined.

(** C1 (the code departs from it).  In the scenario of the specification the
    server accepts the connection and answers with a well-formed status that
    has a [players] object; the data handler marks the object online with
    the counts 5 and 20, but the promise is resolved by the close handler,
    which sets [online] back to [false] and records the error of a closed
    connection. *)
Theorem scenario_probe_resolves_offline :
  parseResponse (platform := Reference.platform) (status_packet scenario_response)
  = Ok scenario_response
  /\ queryMinecraftServer (platform := Reference.platform)
       "play.example.com" (Some 25565) "Example" (scenario_env scenario_response)
     = Some {| rd_id := "bebda4b8";
               rd_name := "Example";
               rd_address := "play.example.com";
               rd_port := 25565;
               rd_online := false;
               rd_error := Some "连接关闭";
               rd_lastUpdated := 1700000000002;
               rd_ping := Some 12;
               rd_latency := Some 40;
               rd_version := Str "1.20.1";
               rd_protocol := Num 763;
               rd_players := Some {| p_online := Num 5; p_max := Num 20;
                                     p_sample := Arr [] |};
               rd_description := Str "A Minecraft Server";
               rd_favicon := Null |}.
Proof. split; vm_compute; reflexivity. Qed.

(** ** Sorting *)

Lemma StronglySorted_lookup {A} (R : A -> A -> Prop) (l : list A) :
  StronglySorted R l ->
  forall i j a b, (i < j)%nat -> l !! i = Some a -> l !! j = Some b -> R a b.
Proof.
  induction 1 as [|x l Hs IH Hall]; intros i j a b Hij Ha Hb.
  - rewrite lookup_nil in Ha. discriminate.
  - destruct j as [|j]; [lia|]. cbn in Hb. destruct i as [|i]; cbn in Ha.
    + injection Ha as <-. rewrite Forall_forall in Hall. apply Hall.
      eapply list_elem_of_lookup_2. exact Hb.
    + eapply IH; [|exact Ha|exact Hb]. lia.
Qed.

Section SortFacts.
Context {A : Type} (comparefn : A -> A -> Except JsNum).
Context (good : A -> Prop) (cmp : A -> A -> Z).
Hypothesis comparefn_cmp :
  forall a b, good a -> good b -> comparefn a b = Ok (Int (cmp a b)).

Lemma sort_insert_ok x s :
  good x -> Forall good s ->
  exists s', sort_insert comparefn x s = Ok s'
             /\ Permutation (x :: s) s' /\ Forall good s'.
Proof.
  intros Hx Hs. induction Hs as [|y s Hy Hs IH]; cbn.
  - exists [x]. repeat split; auto.
  - unfold SortCompare. rewrite (comparefn_cmp x y Hx Hy). cbn.
    destruct (cmp x y <=? 0).
    + eexists. repeat split; auto.
    + destruct IH as (s' & -> & Hperm & Hgood). cbn.
      eexists. split; [reflexivity|]. split; [|constructor; auto].
      rewrite perm_swap. now constructor.
Qed.

Lemma Array_sort_ok l :
  Forall good l ->
  exists s, Array_sort comparefn l = Ok s /\ Permutation l s /\ Forall good s.
Proof.
  induction 1 as [|x l Hx Hl IH]; cbn.
  - exists []. auto.
  - destruct IH as (s & -> & Hperm & Hgood). cbn.
    destruct (sort_insert_ok x s Hx Hgood) as (s' & -> & Hperm' & Hgood').
    exists s'. repeat split; auto. rewrite <- Hperm'. now constructor.
Qed.

(** Elements of one class that compare equal keep the order they came in. *)
Lemma sort_insert_filter (P : A -> Prop) `{forall x, Decision (P x)} x s s' :
  (forall a b, P a -> P b -> cmp a b <= 0) ->
  good x -> Forall good s ->
  sort_insert comparefn x s = Ok s' -> filter P s' = filter P (x :: s).
Proof.
  intros Hclass Hx Hs. revert s'. induction Hs as [|y s Hy Hs IH]; cbn; intros s'.
  - intros [= <-]. reflexivity.
  - unfold SortCompare. rewrite (comparefn_cmp x y Hx Hy). cbn.
    destruct (Z.leb_spec (cmp x y) 0) as [Hle|Hgt].
    + intros [= <-]. reflexivity.
    + destruct (sort_insert comparefn x s) as [r|e]; cbn; [|discriminate].
      intros [= <-]. specialize (IH r eq_refl).
      rewrite !filter_cons in *. rewrite IH.
      destruct (decide (P y)) as [Py|]; [|reflexivity].
      destruct (decide (P x)) as [Px|]; [|reflexivity].
      specialize (Hclass x y Px Py). lia.
Qed.

Lemma Array_sort_filter (P : A -> Prop) `{forall x, Decision (P x)} l s :
  (forall a b, P a -> P b -> cmp a b <= 0) ->
  Forall good l -> Array_sort comparefn l = Ok s -> filter P s = filter P l.
Proof.
  intros Hclass Hl. revert s. induction Hl as [|x l Hx Hl IH]; cbn; intros s.
  - intros [= <-]. reflexivity.
  - destruct (Array_sort_ok l Hl) as (r & Hr & _ & Hgood). rewrite Hr. cbn.
    intros Hins. rewrite (sort_insert_filter P x r s Hclass Hx Hgood Hins).
    rewrite !filter_cons. rewrite (IH r Hr). reflexivity.
Qed.

Hypothesis cmp_total : forall a b, good a -> good b -> 0 < cmp a b -> cmp b a <= 0.
Hypothesis cmp_trans :
  forall a b c, good a -> good b -> good c ->
    cmp a b <= 0 -> cmp b c <= 0 -> cmp a c <= 0.

Lemma sort_insert_sorted x s s' :
  good x -> Forall good s ->
  StronglySorted (fun a b => cmp a b <= 0) s ->
  sort_insert comparefn x s = Ok s' ->
  StronglySorted (fun a b => cmp a b <= 0) s'.
Proof.
  intros Hx Hs Hsorted. revert s'.
  induction Hsorted as [|y s Hsorted IH Hall]; cbn; intros s'.
  - intros [= <-]. repeat constructor.
  - inversion Hs as [|? ? Hy Hs']; subst.
    unfold SortCompare. rewrite (comparefn_cmp x y Hx Hy). cbn.
    destruct (Z.leb_spec (cmp x y) 0) as [Hle|Hgt].
    + intros [= <-]. constructor; [constructor; auto|].
      constructor; [exact Hle|].
      rewrite Forall_forall in *. intros z Hz.
      apply (cmp_trans x y z); auto.
    + destruct (sort_insert_ok x s Hx Hs') as (r & Hr & Hperm & Hgood).
      rewrite Hr. cbn. intros [= <-].
      constructor; [apply IH; auto|].
      rewrite <- Hperm. constructor; [apply cmp_total; auto|exact Hall].
Qed.

Lemma Array_sort_sorted l s :
  Forall good l -> Array_sort comparefn l = Ok s ->
  StronglySorted (fun a b => cmp a b <= 0) s.
Proof.
  intros Hl. revert s. induction Hl as [|x l Hx Hl IH]; cbn; intros s.
  - intros [= <-]. constructor.
  - destruct (Array_sort_ok l Hl) as (r & Hr & _ & Hgood). rewrite Hr. cbn.
    apply sort_insert_sorted; auto.
Qed.

End SortFacts.

(** ** The ordering of the results *)

Section Ranking.
Context {platform : Platform} {laws : PlatformLaws platform}.

Lemma comparator_numeric a b :
  numeric a -> numeric b -> comparator a b = Ok (Int (compared a b)).
Proof.
  unfold numeric, comparator, compared, count, js_minus. intros Ha Hb.
  destruct (st_online a), (st_online b); cbn; try reflexivity.
  destruct (Ha eq_refl) as (pa & na & -> & Hna).
  destruct (Hb eq_refl) as (pb & nb & -> & Hnb).
  rewrite Hna, Hnb, !ToNumber_Num. reflexivity.
Qed.

Lemma compared_total a b : 0 < compared a b -> compared b a <= 0.
Proof.
  unfold compared. destruct (st_online a), (st_online b); cbn; try lia.
  apply localeCompare_total.
Qed.

Lemma compared_trans a b c :
  compared a b <= 0 -> compared b c <= 0 -> compared a c <= 0.
Proof.
  unfold compared. destruct (st_online a), (st_online b), (st_online c); cbn; try lia.
  apply localeCompare_trans.
Qed.

(** C4, as the code has it.  Sorting any list of results whose online
    entries carry numeric player counts succeeds and rearranges the list so
    that every online entry precedes every offline entry, the online entries
    have non-increasing player counts, and the offline entries have their
    names ascending for [localeCompare].  Two online entries with the same
    count compare equal, whatever their names: they stay in the order they
    had in the input. *)
Theorem ranking (results : list ServerStatus) :
  Forall numeric results ->
  exists sorted,
    Array_sort comparator results = Ok sorted
    /\ Permutation results sorted
    /\ (forall i j a b,
          (i < j)%nat -> sorted !! i = Some a -> sorted !! j = Some b ->
          (st_online b = true -> st_online a = true)
          /\ (st_online a = true -> st_online b = true -> count b <= count a)
          /\ (st_online a = false -> st_online b = false ->
              localeCompare (st_name a) (st_name b) <= 0))
    /\ (forall a b,
          numeric a -> numeric b -> st_online a = true -> st_online b = true ->
          count a = count b -> comparator a b = Ok (Int 0))
    /\ (forall n,
          filter (fun s => st_online s = true /\ count s = n) sorted
          = filter (fun s => st_online s = true /\ count s = n) results).
Proof.
  intros Hnum.
  destruct (Array_sort_ok comparator numeric compared comparator_numeric results Hnum)
    as (sorted & Hsort & Hperm & Hgood).
  assert (Hss : StronglySorted (fun a b => compared a b <= 0) sorted).
  { apply (Array_sort_sorted comparator numeric compared comparator_numeric)
      with (l := results); auto.
    - intros a b _ _. apply compared_total.
    - intros a b c _ _ _. apply compared_trans. }
  exists sorted. split; [exact Hsort|]. split; [exact Hperm|]. split; [|split].
  - intros i j a b Hij Ha Hb.
    pose proof (StronglySorted_lookup _ _ Hss i j a b Hij Ha Hb) as Hle. cbn in Hle.
    unfold compared in Hle.
    destruct (st_online a), (st_online b); cbn in Hle; repeat split;
      intros; try discriminate; try lia; auto.
  - intros a b Ha Hb Hoa Hob Heq. rewrite comparator_numeric by assumption.
    unfold compared. rewrite Hoa, Hob. cbn. repeat f_equal. lia.
  - intros n.
    apply (Array_sort_filter comparator numeric compared comparator_numeric); auto.
    intros a b [Hoa Hca] [Hob Hcb]. unfold compared. rewrite Hoa, Hob. cbn. lia.
Qed.

End Ranking.

(** ** The reference platform obeys the laws *)

Lemma string_compare_trans_le (a b c : string) :
  String.compare a b <> Gt -> String.compare b c <> Gt -> String.compare a c <> Gt.
Proof.
  revert b c. induction a as [|x a IH]; intros [|y b] [|z c]; cbn; try congruence.
  destruct (Ascii.compare x y) eqn:Exy; try congruence;
    destruct (Ascii.compare y z) eqn:Eyz; try congruence.
  - apply Ascii.compare_eq_iff in Exy, Eyz. subst.
    replace (Ascii.compare z z) with Eq
      by (unfold Ascii.compare; now rewrite N.compare_refl).
    apply IH.
  - apply Ascii.compare_eq_iff in Exy. subst. rewrite Eyz. congruence.
  - apply Ascii.compare_eq_iff in Eyz. subst. rewrite Exy. congruence.
  - intros _ _.
    assert (H : Ascii.compare x z = Lt).
    { unfold Ascii.compare in *. rewrite N.compare_lt_iff in *. lia. }
    rewrite H. congruence.
Qed.

#[export] Instance reference_laws : PlatformLaws Reference.platform.
Proof.
  split; cbn.
  - reflexivity.
  - reflexivity.
  - intros a b. unfold Reference.compare_code_units.
    rewrite (String.compare_antisym a b).
    destruct (String.compare b a); cbn; lia.
  - intros a b c. unfold Reference.compare_code_units.
    pose proof (string_compare_trans_le a b c) as H.
    destruct (String.compare a b), (String.compare b c), (String.compare a c);
      try lia; intros; exfalso; apply H; congruence.
Qed.

Lemma ranking_witness :
  let results := [example_status "b" false 0; example_status "c" true 3;
                  example_status "a" false 0; example_status "d" true 7] in
  Forall numeric results
  /\ exists sorted,
       Array_sort (comparator (platform := Reference.platform)) results = Ok sorted
       /\ Permutation results sorted.
Proof.
  intros results.
  assert (Hnum : Forall numeric results).
  { repeat constructor; intros _; cbn; eauto. }
  split; [exact Hnum|].
  destruct (ranking (laws := reference_laws) results Hnum)
    as (sorted & Hsort & Hperm & _).
  exists sorted. split; [exact Hsort | exact Hperm].
Defined.

(** The order it comes out in. *)
Example ranking_example :
  Array_sort (comparator (platform := Reference.platform))
    [example_status "b" false 0; example_status "c" true 3;
     example_status "a" false 0; example_status "d" true 7]
  = Ok [example_status "d" true 7; example_status "c" true 3;
        example_status "a" false 0; example_status "b" false 0].
Proof. vm_compute. reflexivity. Qed.

(** C4 as stated fails: two online entries with the same player count are
    left with their names in descending order. *)
Lemma ranking_counterexample :
  let b := example_status "b" true 5 in
  let a := example_status "a" true 5 in
  Array_sort (comparator (platform := Reference.platform)) [b; a] = Ok [b; a]
  /\ comparator (platform := Reference.platform) b a = Ok (Int 0)
  /\ localeCompare (Platform := Reference.platform) (st_name b) (st_name a) = 1.
Proof. vm_compute. auto. Qed.

(** ** One server of the fleet *)

Section QueryServer.
Context {platform : Platform}.

(** The handlers never write the properties that identify the probe. *)
Lemma step_identity host port startTime p ev (k : string * string * string * Z) :
  let ident r := (rd_id r, rd_name r, rd_address r, rd_port r) in
  (ident (responseData p) = k /\ forall r, promise p = Some r -> ident r = k) ->
  ident (responseData (step host port startTime p ev)) = k
  /\ forall r, promise (step host port startTime p ev) = Some r -> ident r = k.
Proof.
  intros ident [Hlive Hres].
  destruct ev; cbn;
    unfold on_connect, on_data, on_error, on_close, on_deadline, resolve;
    repeat match goal with
           | |- context [match ?x with _ => _ end] => destruct x eqn:?; cbn
           end;
    (split; [auto | intros r0 Hr0; try injection Hr0 as <-; cbn; auto]);
    try (apply Hres; congruence).
Qed.

Lemma run_identity host port startTime events p (k : string * string * string * Z) :
  let ident r := (rd_id r, rd_name r, rd_address r, rd_port r) in
  (ident (responseData p) = k /\ forall r, promise p = Some r -> ident r = k) ->
  forall r, promise (run host port startTime p events) = Some r -> ident r = k.
Proof.
  intros ident. revert p. induction events as [|ev events IH]; intros p Hp; cbn.
  - apply Hp.
  - apply IH. apply step_identity. exact Hp.
Qed.

Lemma queryMinecraftServer_identity host port name env r :
  queryMinecraftServer host (Some port) name env = Some r ->
  rd_id r = substring 0 8 (md5_hex (host ++ ":" ++ pretty port))
  /\ rd_name r = name /\ rd_address r = host /\ rd_port r = port.
Proof.
  unfold queryMinecraftServer, settled. cbn [default]. intros Hr.
  eapply (run_identity _ _ _ _ _
            (substring 0 8 (md5_hex (host ++ ":" ++ pretty port)), name, host, port))
    in Hr.
  - injection Hr as -> -> -> ->. auto.
  - unfold start. destruct (pe_connectThrows env); cbn; split; auto;
      intros r0 [= <-]; reflexivity.
Qed.

(** What [queryServer] returns, whatever the network does. *)
Lemma queryServer_returns (server : Server) (env : QueryEnv) :
  exists result,
    queryMinecraftServer (srv_address server) (Some (srv_port server))
      (srv_name server) (qe_probe env) = Some result
    /\ queryServer server env
       = Some (queryServer_settled server (Ok result) (qe_done env))
    /\ rd_online result = false
    /\ no_error (rd_error result) = false.
Proof.
  unfold queryServer.
  destruct (settled_resolved (srv_address server) (srv_port server)
              (srv_name server) (qe_probe env)) as [r Hr].
  assert (Hq : queryMinecraftServer (srv_address server) (Some (srv_port server))
                 (srv_name server) (qe_probe env) = Some r) by exact Hr.
  rewrite Hq. exists r. split; [reflexivity|]. split; [reflexivity|].
  apply (queryMinecraftServer_offline _ _ _ _ _ Hq).
Qed.

(** C3 (the code departs from it).  The result of [queryServer] carries as
    [id] the fingerprint of [address:port] computed by the probe, a string,
    which has taken the place of the identifier of the target it was probed
    from: the result's [id] is not the target's. *)
Theorem queryServer_id_is_fingerprint (server : Server) (env : QueryEnv) :
  exists status,
    queryServer server env = Some status
    /\ st_id status
       = IdStr (substring 0 8
                  (md5_hex (srv_address server ++ ":" ++ pretty (srv_port server))))
    /\ st_id status <> IdNum (srv_id server).
Proof.
  destruct (queryServer_returns server env) as (r & Hq & Hs & _).
  destruct (queryMinecraftServer_identity _ _ _ _ _ Hq) as (Hid & _).
  eexists. split; [exact Hs|]. cbn. rewrite Hid. split; [reflexivity|discriminate].
Qed.

End QueryServer.

(** The target of the scenario, numbered 1 in the store, comes back numbered
    "bebda4b8". *)
Example scenario_queryServer_id :
  let server := {| srv_id := 1; srv_name := "Example";
                   srv_address := "play.example.com"; srv_port := 25565;
                   srv_type := None; srv_category := None;
                   srv_description := None |} in
  option_map st_id
    (queryServer (platform := Reference.platform) server
       {| qe_probe := scenario_env scenario_response; qe_done := 1700000000050 |})
  = Some (IdStr "bebda4b8").
Proof. vm_compute. reflexivity. Qed.

(** ** The fleet query *)

Section FleetFacts.
Context {platform : Platform}.

(** Every result of [queryServer] is offline with an error. *)
Lemma queryServer_offline (server : Server) (env : QueryEnv) :
  exists status,
    queryServer server env = Some status
    /\ st_online status = false /\ st_error status <> None.
Proof.
  destruct (queryServer_returns server env) as (r & _ & Hs & Hoff & Herr).
  eexists. split; [exact Hs|]. cbn. split; [exact Hoff|].
  destruct (rd_error r); [discriminate|discriminate].
Qed.

Lemma queryServer_all (net : Server -> QueryEnv) (servers : list Server) :
  exists results,
    mapM (fun server => queryServer server (net server)) servers = Some results
    /\ length results = length servers
    /\ Forall (fun s => st_online s = false /\ st_error s <> None) results.
Proof.
  induction servers as [|server servers IH]; cbn.
  - exists []. auto.
  - destruct (queryServer_offline server (net server)) as (status & -> & Hoff).
    destruct IH as (results & -> & Hlen & Hall). cbn.
    exists (status :: results). cbn. auto.
Qed.

(** Offline results are compared by name alone, which never throws. *)
Lemma Array_sort_offline (results : list ServerStatus) :
  Forall (fun s => st_online s = false /\ st_error s <> None) results ->
  exists sorted,
    Array_sort comparator results = Ok sorted /\ Permutation results sorted.
Proof.
  intros Hoff.
  destruct (Array_sort_ok comparator (fun s => st_online s = false)
              (fun a b => localeCompare (st_name a) (st_name b))) with (l := results)
    as (sorted & Hs & Hp & _).
  - intros a b Ha Hb. unfold comparator. rewrite Ha, Hb. reflexivity.
  - eapply Forall_impl; [exact Hoff|]. intros s [Hs _]. exact Hs.
  - eauto.
Qed.

(** A call that does not take the cached snapshot probes every server of the
    store, returns a snapshot and leaves it in the cache. *)
Lemma queryAllServers_miss (useCache : bool) (now : Z) (c : ServerCache)
    (file : ReadFile) (net : Server -> QueryEnv) (stamp : Z) :
  useCache = false \/ cache_ttl c <= now - cache_lastUpdated c ->
  exists d,
    queryAllServers useCache now c file net stamp
    = Some {| qa_result := Ok (Fleet d);
              qa_cache := {| cache_data := Fleet d; cache_lastUpdated := now;
                             cache_ttl := cache_ttl c |};
              qa_probed := getServerList file |}
    /\ fd_timestamp d = now
    /\ length (fd_servers d) = length (getServerList file)
    /\ fd_total d = length (getServerList file)
    /\ Forall (fun s => st_online s = false /\ st_error s <> None) (fd_servers d).
Proof.
  intros Hmiss. unfold queryAllServers.
  replace (useCache && (now - cache_lastUpdated c <? cache_ttl c)) with false.
  2:{ destruct Hmiss as [-> | Hexp]; [reflexivity|].
      symmetry. apply andb_false_intro2. apply Z.ltb_ge. exact Hexp. }
  destruct (queryServer_all net (getServerList file)) as (results & -> & Hlen & Hoff).
  destruct (Array_sort_offline results Hoff) as (sorted & -> & Hperm).
  eexists. split; [reflexivity|]. cbn.
  assert (Hl : length sorted = length (getServerList file))
    by (rewrite <- Hlen; symmetry; apply Permutation_length; exact Hperm).
  repeat split; auto.
  rewrite <- Hperm. exact Hoff.
Qed.

End FleetFacts.

(** ** The cache *)

Section CacheFacts.
Context {platform : Platform}.



End CacheFacts.


(** The snapshot of the scenario holds the result of the one probe. *)
Example cache_scenario_snapshot :
  let server := {| srv_id := 1; srv_name := "Example";
                   srv_address := "play.example.com"; srv_port := 25565;
                   srv_type := None; srv_category := None;
                   srv_description := None |} in
  let net := fun _ : Server =>
               {| qe_probe := scenario_env scenario_response; qe_done := 1700000000050 |} in
  option_map (fun q => match qa_result q with
                       | Ok (Fleet d) => map Some (fd_servers d)
                       | _ => []
                       end)
    (queryAllServers (platform := Reference.platform) true 1700000000000 serverCache
       (read_ok [server]) net 1700000000060)
  = Some [queryServer (platform := Reference.platform) server (net server)].
Proof. vm_compute. reflexivity. Qed.

(** ** The store *)

Lemma findIndex_lookup serverId servers i :
  findIndex serverId servers = Some i ->
  exists s, servers !! i = Some s /\ srv_id s = serverId.
Proof.
  revert i. induction servers as [|s servers IH]; cbn; intros i; [discriminate|].
  destruct (Z.eqb_spec (srv_id s) serverId) as [He|Hne].
  - intros [= <-]. eauto.
  - destruct (findIndex serverId servers) as [j|]; cbn; [|discriminate].
    intros [= <-]. cbn. apply IH. reflexivity.
Qed.

Lemma findIndex_found serverId servers :
  In serverId (map srv_id servers) -> exists i, findIndex serverId servers = Some i.
Proof.
  induction servers as [|s servers IH]; cbn; [tauto|].
  destruct (Z.eqb_spec (srv_id s) serverId) as [He|Hne]; [eauto|].
  intros [H|H]; [contradiction|]. destruct (IH H) as [i ->]. cbn. eauto.
Qed.

Section StoreFacts.
Context {platform : Platform}.

(** C9, as the code has it.  A failure to read the store, or to parse what
    was read, is caught by [getServerList], which returns the empty list; a
    failure to write is caught by [saveServerList], which returns [false],
    and the route that deletes a server answers a [false] with status 500,
    leaving the cache as it was.  A probe that fails does not make the fleet
    query fail: whatever the network does, a call that takes no cached
    snapshot returns one with an entry for every server of the store, each
    offline with an error. *)
Theorem store_and_probe_failures :
  (forall err, getServerList (read_throws err) = []
               /\ getServerList (parse_throws err) = [])
  /\ (forall servers err, saveServerList servers (Some err) = false)
  /\ (forall serverId file err c,
        In serverId (map srv_id (getServerList file)) ->
        delete_server (Int serverId) file (Some err) c
        = {| h_response :=
               {| status := 500;
                  body := body_error "删除服务器失败" (Some "保存服务器列表到文件失败"%string) |};
             h_cache := c; h_saved := None |})
  /\ (forall useCache now c file net stamp,
        useCache = false \/ cache_ttl c <= now - cache_lastUpdated c ->
        exists q d,
          queryAllServers useCache now c file net stamp = Some q
          /\ qa_result q = Ok (Fleet d)
          /\ length (fd_servers d) = length (getServerList file)
          /\ Forall (fun s => st_online s = false /\ st_error s <> None)
               (fd_servers d)).
Proof.
  split; [auto|]. split; [auto|]. split.
  - intros serverId file err c Hin. unfold delete_server.
    destruct (findIndex_found _ _ Hin) as [i Hi]. rewrite Hi.
    destruct (findIndex_lookup _ _ _ Hi) as (s & -> & _). reflexivity.
  - intros useCache now c file net stamp Hmiss.
    destruct (queryAllServers_miss useCache now c file net stamp Hmiss)
      as (d & Hq & _ & Hlen & _ & Hoff).
    eexists _, d. split; [exact Hq|]. cbn. auto.
Qed.

End StoreFacts.

(** C9 as stated fails: with the store unreadable, the server list is the
    empty list and the fleet query succeeds with a snapshot of no server. *)
Lemma store_failure_counterexample :
  let unreadable := read_throws (Error "ENOENT: no such file or directory") in
  getServerList unreadable = []
  /\ queryAllServers (platform := Reference.platform) false 1700000000000 serverCache unreadable
       (fun _ => {| qe_probe := scenario_env scenario_response; qe_done := 1700000000050 |}) 1700000000060
     = Some {| qa_result :=
                 Ok (Fleet {| fd_servers := []; fd_total := 0; fd_online := 0;
                              fd_totalPlayers := Num 0; fd_lastUpdated := 1700000000060;
                              fd_timestamp := 1700000000000 |});
               qa_cache :=
                 {| cache_data :=
                      Fleet {| fd_servers := []; fd_total := 0; fd_online := 0;
                               fd_totalPlayers := Num 0; fd_lastUpdated := 1700000000060;
                               fd_timestamp := 1700000000000 |};
                    cache_lastUpdated := 1700000000000; cache_ttl := 30000 |};
               qa_probed := [] |}.
Proof. vm_compute. auto. Qed.

(** The route that adds a server does not look at what [saveServerList]
    returns: with the store unwritable it still answers with status 200,
    and nothing reached the file. *)
Example post_servers_unwritable :
  let h := post_servers
             {| body_name := Some "Example"%string;
                body_address := Some "play.example.com"%string;
                body_port := None; body_category := None; body_description := None |}
             (read_ok []) (Some (Error "EACCES: permission denied")) serverCache in
  status (h_response h) = 200 /\ h_saved h = None.
Proof. vm_compute. auto. Qed.

(** * Further properties *)

(** X1.  Whatever the socket and the timer deliver, the value the promise of
    [queryMinecraftServer] is resolved with has [online = false] and an
    error that is neither null nor empty: every handler that resolves
    clears [online] first. *)
Theorem probe_never_online {platform : Platform} (host : string) (port : option Z)
    (name : string) (env : ProbeEnv) (r : ResponseData) :
  queryMinecraftServer host port name env = Some r ->
  rd_online r = false /\ no_error (rd_error r) = false.
Proof. apply queryMinecraftServer_offline. Qed.

Lemma probe_never_online_witness :
  exists r,
    queryMinecraftServer (platform := Reference.platform)
      "play.example.com" (Some 25565) "Example" (scenario_env scenario_response) = Some r
    /\ rd_online r = false /\ no_error (rd_error r) = false.
Proof.
  destruct (settled_resolved (platform := Reference.platform)
              "play.example.com" 25565 "Example" (scenario_env scenario_response))
    as [r Hr].
  exists r. split; [exact Hr|].
  exact (probe_never_online (platform := Reference.platform)
           "play.example.com" (Some 25565) "Example"
           (scenario_env scenario_response) r Hr).
Defined.

(** X2.  The encoder writes at least one byte and at most five, for any
    number. *)
Theorem varint_length (value : Z) :
  (1 <= length (writeVarInt_bytes value) <= 5)%nat.
Proof. apply writeVarInt_bytes_length. Qed.

(** X3.  A socket that delivers nothing is given up by the timer: the probe
    is resolved offline with the timeout error, and the socket destroyed. *)
Theorem silent_socket_times_out {platform : Platform} (host : string) (port : Z)
    (name : string) (startTime created : Z) (lookup : option string) :
  let env := {| pe_startTime := startTime; pe_created := created;
                pe_lookup := lookup; pe_connectThrows := None;
                pe_events := [] |} in
  option_map (fun r => (rd_online r, rd_error r))
    (queryMinecraftServer host (Some port) name env)
  = Some (false, Some "连接超时"%string)
  /\ socket (settled host port name env)
     = [setTimeout_ 5000; connect_ port (resolveHostname host lookup); destroy_].
Proof. split; reflexivity. Qed.

(** X5.  The VarInt round trip holds for every signed 32-bit integer, the
    negative ones included (they take five bytes). *)
Theorem varint_roundtrip_signed (n : Z) :
  - 2 ^ 31 <= n < 2 ^ 31 ->
  readVarInt (writeVarInt_bytes n) 0 = Ok (n, length (writeVarInt_bytes n)).
Proof.
  intros Hn. pose proof (readVarInt_encoded n [] [] Hn) as H.
  rewrite app_nil_r in H. exact H.
Qed.

Lemma varint_roundtrip_signed_witness :
  - 2 ^ 31 <= -1 < 2 ^ 31
  /\ readVarInt (writeVarInt_bytes (-1)) 0 = Ok (-1, length (writeVarInt_bytes (-1))).
Proof. split; [lia | apply (varint_roundtrip_signed (-1)); lia]. Defined.

(** ** The handshake *)

Lemma Buffer_copy_splice (source target : Buffer) (targetStart : nat) :
  (targetStart + length source <= length target)%nat ->
  Buffer_copy source target targetStart
  = take targetStart target ++ source ++ drop (targetStart + length source) target.
Proof.
  revert target targetStart. induction source as [|b source IH]; intros target i Hfit; cbn.
  - rewrite Nat.add_0_r, take_drop. reflexivity.
  - cbn in Hfit. rewrite IH by (rewrite length_insert; lia).
    rewrite drop_insert_lt by lia.
    rewrite (take_S_r _ _ b) by (apply list_lookup_insert_eq; lia).
    rewrite take_insert_ge by lia.
    rewrite <- app_assoc, Nat.add_succ_r. reflexivity.
Qed.

Lemma writeVarInt_append (prefix rest : Buffer) value offset :
  offset = length prefix ->
  (length (writeVarInt_bytes value) <= length rest)%nat ->
  writeVarInt (prefix ++ rest) value offset
  = Ok ((prefix ++ writeVarInt_bytes value) ++ drop (length (writeVarInt_bytes value)) rest,
        length (prefix ++ writeVarInt_bytes value)).
Proof.
  intros -> Hfit.
  rewrite (writeVarInt_splice (bits value)) by (rewrite ?length_app; lia).
  rewrite take_app_length, drop_app_add', <- app_assoc, length_app by reflexivity.
  reflexivity.
Qed.

(** X6.  The handshake payload is bit-exact: VarInt(763), VarInt(length of
    the host), the bytes of the host, the port as a big-endian 16-bit
    integer, VarInt(1); for any host of at most 1017 bytes and any port that
    fits 16 bits. *)
Theorem handshake_layout (host : string) (port : Z) :
  (length (bytes_of_string host) <= 1017)%nat -> 0 <= port <= 65535 ->
  createHandshakePacket host port
  = Ok (writeVarInt_bytes 763
          ++ writeVarInt_bytes (Z.of_nat (length (bytes_of_string host)))
          ++ bytes_of_string host ++ [port / 256; port mod 256]
          ++ writeVarInt_bytes 1).
Proof.
  intros Hhost Hport. unfold createHandshakePacket. cbv zeta.
  set (H := bytes_of_string host) in *.
  set (N := writeVarInt_bytes (Z.of_nat (length H))).
  assert (HN : (length N <= 2)%nat).
  { apply (writeVarInt_bytes_length_bound 2). rewrite toUint32_small by lia.
    change (2 ^ (7 * Z.of_nat 2)) with 16384. lia. }
  assert (E763 : writeVarInt_bytes 763 = [251; 5]) by (vm_compute; reflexivity).
  assert (E1 : writeVarInt_bytes 1 = [1]) by (vm_compute; reflexivity).
  change (Buffer_alloc 1024) with ([] ++ replicate 1024 0).
  rewrite (writeVarInt_append [] (replicate 1024 0) 763 0 eq_refl)
    by (rewrite E763, length_replicate; cbn; lia).
  rewrite E763. cbn [bindE length]. rewrite (app_nil_l [251; 5]).
  rewrite drop_replicate.
  rewrite (writeVarInt_append [251; 5] _ _ 2 eq_refl)
    by (rewrite length_replicate; fold N; lia).
  fold N. cbn [bindE].
  rewrite drop_replicate.
  set (Q := [251; 5] ++ N).
  assert (HQ : length Q = (2 + length N)%nat) by reflexivity.
  rewrite Buffer_copy_splice by (rewrite !length_app, length_replicate; lia).
  rewrite take_app_length, drop_app_add', drop_replicate by reflexivity.
  set (P := Q ++ H).
  replace (length Q + length H)%nat with (length P)
    by (unfold P; rewrite !length_app; reflexivity).
  set (room := (1024 - 2 - length N - length H)%nat).
  assert (Hroom : (3 <= room)%nat) by (unfold room; lia).
  replace (Q ++ H ++ replicate room 0) with (P ++ replicate room 0)
    by (unfold P; rewrite <- !app_assoc; reflexivity).
  unfold writeUInt16BE.
  replace ((0 <=? port) && (port <=? 65535)) with true
    by (symmetry; apply andb_true_intro; split; apply Z.leb_le; lia).
  cbn [negb].
  destruct (decide _) as [_|Hno]; [|rewrite length_app, length_replicate in Hno; lia].
  cbn [bindE].
  destruct room as [|[|room]]; try lia. cbn [replicate].
  rewrite (insert_app_r_alt P) by lia. rewrite Nat.sub_diag. cbn [insert list_insert].
  rewrite (insert_app_r_alt P) by lia.
  replace (S (length P) - length P)%nat with 1%nat by lia. cbn [insert list_insert].
  replace (P ++ port / 256 :: port mod 256 :: replicate room 0)
    with ((P ++ [port / 256; port mod 256]) ++ replicate room 0)
    by (rewrite <- app_assoc; reflexivity).
  rewrite (writeVarInt_append (P ++ [port / 256; port mod 256]) _ 1)
    by (rewrite ?E1, ?length_replicate, ?length_app; cbn; lia).
  rewrite E1. cbn [bindE].
  unfold Buffer_slice. rewrite Nat.sub_0_r, drop_0, take_app_length.
  unfold P, Q. rewrite <- !app_assoc. reflexivity.
Qed.

Lemma handshake_layout_witness :
  (length (bytes_of_string "play.example.com") <= 1017)%nat
  /\ 0 <= 25565 <= 65535
  /\ createHandshakePacket "play.example.com" 25565
     = Ok ([251; 5] ++ [16] ++ bytes_of_string "play.example.com" ++ [99; 221] ++ [1]).
Proof.
  assert (H1 : (length (bytes_of_string "play.example.com") <= 1017)%nat)
    by (vm_compute; lia).
  assert (H2 : 0 <= 25565 <= 65535) by lia.
  split; [exact H1|]. split; [exact H2|].
  exact (handshake_layout "play.example.com" 25565 H1 H2).
Defined.

(** ** The bytes of a VarInt *)

Lemma toInt32_range z : - 2 ^ 31 <= toInt32 z < 2 ^ 31.
Proof.
  unfold toInt32. pose proof (Z.mod_pos_bound (z + 2 ^ 31) (2 ^ 32) ltac:(lia)). lia.
Qed.

(** The bits of the signed view: the low 31 as they are, the others as
    bit 31. *)
Lemma toInt32_testbit z i :
  0 <= i ->
  Z.testbit (toInt32 z) i = Z.testbit z (Z.min i 31).
Proof.
  intros Hi.
  assert (Hu : 0 <= z mod 2 ^ 32 < 2 ^ 32) by (apply Z.mod_pos_bound; lia).
  assert (Hneg : forall j, 0 <= j -> Z.testbit (- 2 ^ 32) j = (32 <=? j)).
  { intros j Hj. replace (- 2 ^ 32) with (Z.lnot (Z.ones 32)) by reflexivity.
    rewrite Z.lnot_spec by lia.
    destruct (Z.leb_spec 32 j).
    - rewrite Z.ones_spec_high by lia. reflexivity.
    - rewrite Z.ones_spec_low by lia. reflexivity. }
  assert (Hlow : forall j, 0 <= j -> Z.testbit (z mod 2 ^ 32) j
                                 = if j <? 32 then Z.testbit z j else false).
  { intros j Hj. destruct (Z.ltb_spec j 32).
    - apply Z.mod_pow2_bits_low. lia.
    - apply Z.mod_pow2_bits_high. lia. }
  destruct (Z.testbit z 31) eqn:Hsign.
  - (* negative: the unsigned view minus 2^32 *)
    assert (Hge : 2 ^ 31 <= z mod 2 ^ 32).
    { destruct (Z_lt_le_dec (z mod 2 ^ 32) (2 ^ 31)) as [Hlt|]; [|lia].
      assert (Hb : Z.testbit (z mod 2 ^ 32) 31 = false).
      { destruct (Z.eq_dec (z mod 2 ^ 32) 0) as [->|]; [apply Z.bits_0|].
        apply Z.bits_above_log2; [lia|]. apply Z.log2_lt_pow2; lia. }
      rewrite Hlow in Hb by lia. change (31 <? 32) with true in Hb.
      cbv iota in Hb. congruence. }
    assert (E : toInt32 z = Z.lor (z mod 2 ^ 32) (- 2 ^ 32)).
    { rewrite <- Z.add_nocarry_lor.
      - unfold toInt32.
        rewrite <- (Z.add_mod_idemp_l z) by lia.
        replace (z mod 2 ^ 32 + 2 ^ 31) with (z mod 2 ^ 32 - 2 ^ 31 + 1 * 2 ^ 32) by lia.
        rewrite Z.mod_add by lia. rewrite Z.mod_small; lia.
      - apply Z.bits_inj'. intros j Hj. rewrite Z.land_spec, Z.bits_0, Hlow, Hneg by lia.
        destruct (Z.ltb_spec j 32), (Z.leb_spec 32 j); try lia;
          rewrite ?andb_false_r; reflexivity. }
    rewrite E, Z.lor_spec, Hlow, Hneg by lia.
    destruct (Z.ltb_spec i 32), (Z.leb_spec 32 i); try lia.
    + rewrite orb_false_r. destruct (Z_lt_le_dec i 31).
      * rewrite Z.min_l by lia. reflexivity.
      * replace i with 31 by lia. reflexivity.
    + rewrite Z.min_r by lia. rewrite Hsign. reflexivity.
  - assert (Hlt : z mod 2 ^ 32 < 2 ^ 31).
    { destruct (Z_lt_le_dec (z mod 2 ^ 32) (2 ^ 31)) as [|Hge]; [lia|].
      assert (Hb : Z.testbit (z mod 2 ^ 32) 31 = true).
      { replace 31 with (Z.log2 (z mod 2 ^ 32)); [apply Z.bit_log2; lia|].
        apply Z.log2_unique; lia. }
      rewrite Hlow in Hb by lia. change (31 <? 32) with true in Hb.
      cbv iota in Hb. congruence. }
    assert (E : toInt32 z = z mod 2 ^ 32).
    { unfold toInt32. rewrite <- (Z.add_mod_idemp_l z) by lia.
      rewrite (Z.mod_small (z mod 2 ^ 32 + 2 ^ 31)); lia. }
    rewrite E, Hlow by lia.
    destruct (Z.ltb_spec i 32).
    + destruct (Z_lt_le_dec i 31).
      * rewrite Z.min_l by lia. reflexivity.
      * replace i with 31 by lia. reflexivity.
    + rewrite Z.min_r by lia. rewrite Hsign. reflexivity.
Qed.

(** [a | b] is a signed 32-bit integer. *)
Lemma js_or_range a b : - 2 ^ 31 <= js_or a b < 2 ^ 31.
Proof.
  unfold js_or.
  replace (Z.lor (toInt32 a) (toInt32 b)) with (toInt32 (Z.lor a b));
    [apply toInt32_range|].
  apply Z.bits_inj'. intros i Hi.
  rewrite Z.lor_spec, !toInt32_testbit, Z.lor_spec by lia. reflexivity.
Qed.

(** X7.  The bytes the encoder writes for any number: all but the last are
    in 128..255 (high bit set), the last is in 0..127 (high bit clear). *)
Theorem writeVarInt_bytes_shape (value : Z) :
  exists init last,
    writeVarInt_bytes value = init ++ [last]
    /\ Forall (fun b => 128 <= b <= 255) init
    /\ 0 <= last <= 127.
Proof.
  remember (bits value) as k eqn:Hk. revert value Hk.
  induction k as [k IH] using lt_wf_ind. intros value Hk.
  pose proof (js_and_127_range value) as Hb.
  destruct (Z.eq_dec (js_ushr value 7) 0) as [E|E].
  - rewrite (writeVarInt_bytes_last value E).
    exists [], (js_and value 0x7F). repeat split; [constructor|lia|lia].
  - rewrite (writeVarInt_bytes_more value E).
    destruct (continuation_byte _ Hb) as (C1 & _). rewrite C1.
    pose proof (bits_decreases value E) as Hlt.
    destruct (IH (bits (js_ushr value 7)) ltac:(lia) (js_ushr value 7) eq_refl)
      as (init & last & -> & Hinit & Hlast).
    exists ((js_and value 0x7F + 128) :: init), last.
    repeat split; try lia. constructor; [lia|exact Hinit].
Qed.

(** The loop passes the bytes with the high bit set and returns at the
    first one with it clear. *)
Lemma readVarInt_loop_terminator (k : nat) :
  forall (buffer : Buffer) result shift offset i b,
    (i - offset <= k)%nat -> (offset <= i)%nat ->
    buffer !! i = Some b -> js_and b 0x80 = 0 ->
    (forall j c, (offset <= j < i)%nat -> buffer !! j = Some c -> js_and c 0x80 <> 0) ->
    exists v, readVarInt_loop buffer result shift offset = Ok (v, S i)
              /\ - 2 ^ 31 <= v < 2 ^ 31.
Proof.
  induction k as [|k IH]; intros buffer result shift offset i b Hk Hoi Hb Hlow Hhigh.
  - assert (offset = i) by lia. subst.
    rewrite (readVarInt_loop_some _ _ _ _ b Hb). cbv zeta. rewrite Hlow. cbn [Z.eqb].
    eexists. split; [reflexivity|]. apply js_or_range.
  - destruct (Nat.eq_dec offset i) as [->|Hne].
    + rewrite (readVarInt_loop_some _ _ _ _ b Hb). cbv zeta. rewrite Hlow. cbn [Z.eqb].
      eexists. split; [reflexivity|]. apply js_or_range.
    + assert (Hlt : (offset < length buffer)%nat)
        by (apply lookup_lt_Some in Hb; lia).
      destruct (lookup_lt_is_Some_2 buffer offset Hlt) as [c Hc].
      rewrite (readVarInt_loop_some _ _ _ _ c Hc). cbv zeta.
      assert (Hc80 : js_and c 0x80 <> 0) by (apply (Hhigh offset); [lia|exact Hc]).
      apply Z.eqb_neq in Hc80. rewrite Hc80.
      apply (IH _ _ _ _ i b); auto; try lia.
      intros j c' Hj. apply Hhigh. lia.
Qed.

(** X8.  [readVarInt] returns at the first byte at or after [offset] whose
    high bit is clear, with the offset just past it, however many bytes with
    the high bit set come before (there is no limit of five), and the value
    it returns is a signed 32-bit integer. *)
Theorem readVarInt_stops_at_first_terminator (buffer : Buffer) (offset i : nat) (b : Z) :
  (offset <= i)%nat ->
  buffer !! i = Some b -> js_and b 0x80 = 0 ->
  (forall j c, (offset <= j < i)%nat -> buffer !! j = Some c -> js_and c 0x80 <> 0) ->
  exists v, readVarInt buffer offset = Ok (v, S i) /\ - 2 ^ 31 <= v < 2 ^ 31.
Proof.
  intros Hoi Hb Hlow Hhigh. unfold readVarInt.
  apply (readVarInt_loop_terminator (i - offset) _ _ _ _ i b); auto.
Qed.

Lemma readVarInt_stops_at_first_terminator_witness :
  exists v, readVarInt [128; 128; 128; 128; 128; 1; 7] 0 = Ok (v, 6%nat)
            /\ - 2 ^ 31 <= v < 2 ^ 31.
Proof.
  apply (readVarInt_stops_at_first_terminator [128; 128; 128; 128; 128; 1; 7] 0 5 1).
  - lia.
  - reflexivity.
  - reflexivity.
  - intros j c Hj Hc.
    assert (Hcases : j = 0%nat \/ j = 1%nat \/ j = 2%nat \/ j = 3%nat \/ j = 4%nat) by lia.
    destruct Hcases as [->|[->|[->|[->| ->]]]]; injection Hc as <-; discriminate.
Defined.

(** The six bytes above are read as 8: the sixth group is shifted by 35,
    which the shift operator takes modulo 32. *)
Example readVarInt_six_bytes :
  readVarInt [128; 128; 128; 128; 128; 1; 7] 0 = Ok (8, 6%nat).
Proof. vm_compute. reflexivity. Qed.

(** The in-place encoder has no room: it throws at the end of the buffer. *)
Lemma writeVarInt_no_room (k : nat) :
  forall v (buffer : Buffer) offset,
    (bits v <= k)%nat ->
    (length buffer < offset + length (writeVarInt_bytes v))%nat ->
    writeVarInt buffer v offset
    = Throw (ERR_OUT_OF_RANGE "offset" (Z.of_nat (Nat.max offset (length buffer)))).
Proof.
  induction k as [k IH] using lt_wf_ind. intros v buffer offset Hk Hroom.
  pose proof (js_and_127_range v) as Hb.
  rewrite writeVarInt_equation_1.
  destruct (Z.eq_dec (js_ushr v 7) 0) as [E|E]; cbn.
  - rewrite writeVarInt_bytes_last in Hroom by exact E. cbn [length] in Hroom.
    unfold writeUInt8.
    replace ((0 <=? js_and v 127) && (js_and v 127 <=? 255)) with true
      by (symmetry; apply andb_true_intro; split; apply Z.leb_le; lia).
    cbn [negb]. destruct (decide _); [lia|].
    rewrite Nat.max_l by lia. reflexivity.
  - rewrite writeVarInt_bytes_more in Hroom by exact E. cbn [length] in Hroom.
    destruct (continuation_byte _ Hb) as (C1 & _). rewrite C1.
    unfold writeUInt8.
    replace ((0 <=? js_and v 127 + 128) && (js_and v 127 + 128 <=? 255)) with true
      by (symmetry; apply andb_true_intro; split; apply Z.leb_le; lia).
    cbn [negb]. destruct (decide _) as [Hin|Hout].
    + pose proof (bits_decreases v E) as Hbits.
      rewrite (IH (bits (js_ushr v 7))); try lia.
      * rewrite length_insert. rewrite !Nat.max_r by lia. reflexivity.
      * rewrite length_insert. lia.
    + rewrite Nat.max_l by lia. reflexivity.
Qed.

(** X9.  The in-place encoder and the encoder of the connect handler write
    the same bytes: when they fit, [writeVarInt(buffer, value, offset)]
    leaves them at [offset], changes no other byte and returns the offset
    past them; when they do not fit it throws the range error of the write
    at the end of the buffer. *)
Theorem writeVarInt_in_place (buffer : Buffer) (value : Z) (offset : nat) :
  let bytes := writeVarInt_bytes value in
  if decide (offset + length bytes <= length buffer)%nat then
    writeVarInt buffer value offset
    = Ok (take offset buffer ++ bytes ++ drop (offset + length bytes) buffer,
          (offset + length bytes)%nat)
  else
    writeVarInt buffer value offset
    = Throw (ERR_OUT_OF_RANGE "offset" (Z.of_nat (Nat.max offset (length buffer)))).
Proof.
  cbv zeta. destruct (decide _) as [Hfit|Hno].
  - apply (writeVarInt_splice (bits value)); lia.
  - apply (writeVarInt_no_room (bits value)); lia.
Qed.

Section ParseReads.
Context {platform : Platform}.

(** X10.  On a chunk made of VarInt(L), VarInt(0), VarInt(n) and then any
    bytes, [parseResponse] returns what [JSON.parse] makes of the first [n]
    of those bytes: of all of them when fewer than [n] are there, of the
    empty text when [n <= 0].  The declared packet length [L] is not looked
    at, bytes after the JSON are ignored, and a JSON text cut short is
    parsed as it is. *)
Theorem parseResponse_reads (L n : Z) (rest : Buffer) :
  - 2 ^ 31 <= L < 2 ^ 31 -> - 2 ^ 31 <= n < 2 ^ 31 ->
  parseResponse (writeVarInt_bytes L ++ writeVarInt_bytes 0 ++ writeVarInt_bytes n ++ rest)
  = match JSON_parse (string_of_bytes (take (Z.to_nat n) rest)) with
    | Ok v => Ok v
    | Throw err => Throw (Error ("JSON解析失败: " ++ message err))
    end.
Proof.
  intros HL Hn.
  set (A := writeVarInt_bytes L). set (B := writeVarInt_bytes 0).
  set (C := writeVarInt_bytes n).
  set (chunk := A ++ B ++ C ++ rest).
  assert (R1 : readVarInt chunk 0 = Ok (L, length A)).
  { apply (readVarInt_encoded L [] (B ++ C ++ rest) HL). }
  assert (R2 : readVarInt chunk (length A) = Ok (0, (length A + length B)%nat)).
  { apply (readVarInt_encoded 0 A (C ++ rest)). lia. }
  assert (R3 : readVarInt chunk (length A + length B)
               = Ok (n, (length A + length B + length C)%nat)).
  { unfold chunk. rewrite (app_assoc A B), <- length_app.
    apply (readVarInt_encoded n (A ++ B) rest Hn). }
  unfold parseResponse. rewrite R1. cbn [bindE]. rewrite R2. cbn [bindE].
  change (negb (0 =? 0)) with false. cbv iota. rewrite R3. cbn [bindE].
  replace (Buffer_toString chunk (length A + length B + length C)
             (Z.of_nat (length A + length B + length C) + n))
    with (string_of_bytes (take (Z.to_nat n) rest)); [reflexivity|].
  unfold Buffer_toString. f_equal.
  assert (Hlen : length chunk = (length A + length B + length C + length rest)%nat)
    by (unfold chunk; rewrite !length_app; lia).
  assert (Hdrop : drop (length A + length B + length C) chunk = rest).
  { unfold chunk. rewrite !app_assoc. apply drop_app_length'.
    rewrite !length_app. reflexivity. }
  rewrite Hdrop, Hlen.
  destruct (Z.gtb_spec (Z.of_nat (length A + length B + length C) + n)
              (Z.of_nat (length A + length B + length C + length rest))) as [Hgt|Hle].
  - rewrite (take_ge rest (Z.to_nat n)) by lia.
    rewrite take_ge by lia. reflexivity.
  - f_equal. lia.
Qed.

End ParseReads.

Lemma parseResponse_reads_witness :
  - 2 ^ 31 <= 1000 < 2 ^ 31 /\ - 2 ^ 31 <= 2 < 2 ^ 31
  /\ parseResponse (platform := Reference.platform)
       (writeVarInt_bytes 1000 ++ writeVarInt_bytes 0 ++ writeVarInt_bytes 2
          ++ [123; 125; 255; 255])
     = Ok (Obj []).
Proof.
  split; [lia|]. split; [lia|].
  rewrite (parseResponse_reads (platform := Reference.platform) 1000 2 [123; 125; 255; 255])
    by lia.
  vm_compute. reflexivity.
Defined.

(** ** A host that does not fit *)

Lemma Buffer_copy_length (source target : Buffer) (targetStart : nat) :
  length (Buffer_copy source target targetStart) = length target.
Proof.
  revert target targetStart. induction source as [|b source IH]; intros target i; cbn.
  - reflexivity.
  - rewrite IH. apply length_insert.
Qed.

Lemma writeVarInt_bytes_two v : 128 <= v < 2 ^ 32 -> (2 <= length (writeVarInt_bytes v))%nat.
Proof.
  intros Hv. rewrite writeVarInt_bytes_more.
  - cbn [length]. pose proof (writeVarInt_bytes_length (js_ushr v 7)). lia.
  - rewrite js_ushr_7, toUint32_small by lia.
    assert (1 <= v / 128) by (apply Z.div_le_lower_bound; lia). lia.
Qed.

(** X11.  [createHandshakePacket] throws whenever the host takes more than
    1017 bytes or the port does not fit 16 bits: the 1024-byte buffer it
    allocates has no room, or [writeUInt16BE] refuses the value. *)
Theorem handshake_does_not_fit (host : string) (port : Z) :
  (1017 < length (bytes_of_string host))%nat \/ ~ (0 <= port <= 65535) ->
  exists e, createHandshakePacket host port = Throw e.
Proof.
  intros Hbad. unfold createHandshakePacket. cbv zeta.
  set (H := bytes_of_string host) in *.
  set (N := writeVarInt_bytes (Z.of_nat (length H))).
  assert (E763 : writeVarInt_bytes 763 = [251; 5]) by (vm_compute; reflexivity).
  assert (E1 : writeVarInt_bytes 1 = [1]) by (vm_compute; reflexivity).
  pose proof (writeVarInt_bytes_length (Z.of_nat (length H))) as HN. fold N in HN.
  change (Buffer_alloc 1024) with ([] ++ replicate 1024 0).
  rewrite (writeVarInt_append [] (replicate 1024 0) 763 0 eq_refl)
    by (rewrite E763, length_replicate; cbn; lia).
  rewrite E763. cbn [bindE length]. rewrite (app_nil_l [251; 5]).
  rewrite drop_replicate.
  rewrite (writeVarInt_append [251; 5] _ _ 2 eq_refl)
    by (rewrite length_replicate; fold N; lia).
  fold N. cbn [bindE].
  rewrite drop_replicate.
  set (Q := [251; 5] ++ N).
  assert (HQ : length Q = (2 + length N)%nat) by reflexivity.
  set (b2 := Q ++ replicate (1024 - 2 - length N) 0).
  assert (Hb2 : length b2 = 1024%nat)
    by (unfold b2; rewrite length_app, length_replicate; lia).
  set (b3 := Buffer_copy H b2 (length Q)).
  assert (Hb3 : length b3 = 1024%nat) by (unfold b3; rewrite Buffer_copy_length; exact Hb2).
  unfold writeUInt16BE.
  destruct (negb ((0 <=? port) && (port <=? 65535))) eqn:Hport; cbn [bindE]; [eauto|].
  assert (Hlong : (1017 < length H)%nat).
  { destruct Hbad as [Hl|Hp]; [exact Hl|]. exfalso. apply Hp.
    apply negb_false_iff, andb_true_iff in Hport. destruct Hport as [P1 P2].
    apply Z.leb_le in P1, P2. lia. }
  destruct (decide _) as [Hfit|Hno]; cbn [bindE]; [|eauto].
  rewrite Hb3 in Hfit.
  assert (HN2 : (2 <= length N)%nat).
  { apply writeVarInt_bytes_two. lia. }
  rewrite (writeVarInt_no_room (bits 1)).
  - eauto.
  - lia.
  - rewrite E1, !length_insert, Hb3. cbn [length]. lia.
Qed.

Lemma handshake_does_not_fit_witness :
  let host := string_of_list_ascii (repeat "a"%char 1018) in
  (1017 < length (bytes_of_string host))%nat
  /\ exists e, createHandshakePacket host 25565 = Throw e.
Proof.
  intros host.
  assert (H : (1017 < length (bytes_of_string host))%nat) by (vm_compute; lia).
  split; [exact H|]. apply (handshake_does_not_fit host 25565). left. exact H.
Defined.

Lemma run_app {platform : Platform} host port startTime p (a b : list SocketEvent) :
  run host port startTime p (a ++ b)
  = run host port startTime (run host port startTime p a) b.
Proof. unfold run. apply fold_left_app. Qed.

Section ProbeEvents.
Context {platform : Platform}.
Variables (host : string) (port : Z) (name : string) (startTime : Z).

Local Abbreviation step := (step host port startTime).
Local Abbreviation run := (run host port startTime).

(** Connect and data events leave the probe unresolved and the timer
    pending. *)
Lemma run_pending (p : Probe) (pre : list SocketEvent) :
  Forall (fun ev => is_terminal ev = false) pre ->
  hasResolved p = false -> promise p = None -> timeoutId p = true ->
  hasResolved (run p pre) = false /\ promise (run p pre) = None
  /\ timeoutId (run p pre) = true.
Proof.
  intros Hpre. revert p. induction Hpre as [|ev pre Hev Hpre IH]; intros p H1 H2 H3.
  - auto.
  - cbn. apply IH; destruct ev; try discriminate; cbn;
      unfold on_connect, on_data;
      repeat match goal with
             | |- context [match ?x with _ => _ end] => destruct x; cbn
             end; auto.
Qed.

(** X12.  The first event that is not a connect or a data event decides the
    outcome.  After any number of connect and data events the probe is still
    unresolved; the next event then resolves it offline: an error event with
    the connection error and its message, the socket's timeout or the timer
    with the timeout error, a close with the error the data handler
    recorded, if any, and the closed-connection error otherwise.  Nothing
    that follows changes it. *)
Theorem first_terminal_event_decides (lookup : option string) (created : Z)
    (pre : list SocketEvent) (ev : SocketEvent) (post : list SocketEvent) :
  Forall (fun e => is_terminal e = false) pre ->
  is_terminal ev = true ->
  let p := run (start host port name lookup created None) pre in
  promise p = None
  /\ exists r,
       promise (run (start host port name lookup created None) (pre ++ ev :: post))
       = Some r
       /\ rd_online r = false
       /\ rd_error r
          = Some (match ev with
                  | ev_error err_message => "连接错误: " ++ err_message
                  | ev_close =>
                      if no_error (rd_error (responseData p)) then "连接关闭"
                      else default "" (rd_error (responseData p))
                  | _ => "连接超时"
                  end)%string.
Proof.
  intros Hpre Hev p.
  destruct (run_pending (start host port name lookup created None) pre Hpre
              eq_refl eq_refl eq_refl) as (H1 & H2 & H3).
  fold p in H1, H2, H3. split; [exact H2|].
  assert (Hstep : exists r,
            promise (step p ev) = Some r /\ rd_online r = false
            /\ rd_error r
               = Some (match ev with
                       | ev_error err_message => "连接错误: " ++ err_message
                       | ev_close =>
                           if no_error (rd_error (responseData p)) then "连接关闭"
                           else default "" (rd_error (responseData p))
                       | _ => "连接超时"
                       end)%string).
  { destruct ev; try discriminate; cbn;
      unfold on_error, on_close, on_deadline; rewrite ?H3, H1, ?H2; cbn;
      rewrite ?H2; cbn; eexists; (split; [reflexivity|]); cbn; split; auto.
    destruct (rd_error (responseData p)) as [e|] eqn:He; cbn; [|reflexivity].
    destruct (String.eqb e ""); cbn; [reflexivity|exact He]. }
  destruct Hstep as (r & Hr & Hoff & Herr).
  exists r. split; [|auto].
  rewrite run_app. fold p. apply (promise_kept_run _ _ _ (step p ev) post r Hr).
Qed.

(** X13.  The handlers never clear an error: once [responseData.error] is
    set, to a string that is not empty, it is set in every later state,
    whatever the socket and the timer deliver.  A chunk that parses after
    one that did not leaves the error of the first in place. *)
Theorem error_is_never_cleared (p : Probe) (events : list SocketEvent) :
  no_error (rd_error (responseData p)) = false ->
  no_error (rd_error (responseData (run p events))) = false.
Proof.
  revert p. induction events as [|ev events IH]; intros p Hp; [exact Hp|].
  cbn. apply IH.
  destruct ev; cbn; unfold on_connect, on_data, on_error, on_close, on_deadline;
    repeat match goal with
           | |- context [match ?x with _ => _ end] => destruct x eqn:?; cbn
           end; auto; congruence.
Qed.

End ProbeEvents.

Lemma first_terminal_event_decides_witness :
  exists r,
    promise (run (platform := Reference.platform) "play.example.com" 25565 0
               (start (platform := Reference.platform)
                  "play.example.com" 25565 "Example" None 0 None)
               ([ev_connect 3; ev_data 9 [255]] ++ ev_close :: [ev_timer]))
    = Some r
    /\ rd_online r = false
    /\ rd_error r = Some "解析响应失败: The value of offset is out of range"%string.
Proof.
  destruct (first_terminal_event_decides (platform := Reference.platform)
              "play.example.com" 25565 "Example" 0 None 0
              [ev_connect 3; ev_data 9 [255]] ev_close [ev_timer])
    as (_ & r & Hr & Hoff & Herr).
  - repeat constructor.
  - reflexivity.
  - exists r. split; [exact Hr|]. split; [exact Hoff|]. rewrite Herr. reflexivity.
Defined.

Lemma error_is_never_cleared_witness :
  let p := run (platform := Reference.platform) "play.example.com" 25565 0
             (start (platform := Reference.platform)
                "play.example.com" 25565 "Example" None 0 None)
             [ev_connect 3; ev_data 9 [255]] in
  no_error (rd_error (responseData p)) = false
  /\ no_error
       (rd_error
          (responseData
             (run (platform := Reference.platform) "play.example.com" 25565 0 p
                [ev_data 12 (status_packet scenario_response)]))) = false.
Proof.
  intros p. assert (H : no_error (rd_error (responseData p)) = false) by reflexivity.
  split; [exact H|].
  apply (error_is_never_cleared (platform := Reference.platform)). exact H.
Defined.


(** ** The results of the fleet *)

Section FleetResults.
Context {platform : Platform}.

(** X14.  The result of [queryServer] names the server as the store does
    (name, address, port, type) and carries the clock at completion; its
    category is never empty ('未分类' when the store has none) and its
    description is the store's, or the empty string, never the one parsed
    from the response; and it is offline with an error. *)
Theorem queryServer_result (server : Server) (env : QueryEnv) :
  exists status,
    queryServer server env = Some status
    /\ st_name status = srv_name server
    /\ st_address status = srv_address server
    /\ st_port status = srv_port server
    /\ st_type status = srv_type server
    /\ (exists category, st_category status = Some category /\ category <> ""%string)
    /\ st_description status = Some (default ""%string (srv_description server))
    /\ st_lastUpdated status = qe_done env
    /\ st_online status = false
    /\ st_error status <> None.
Proof.
  destruct (queryServer_returns server env) as (r & Hq & Hs & Hoff & Herr).
  destruct (queryMinecraftServer_identity _ _ _ _ _ Hq) as (_ & Hname & Haddr & Hport).
  eexists. split; [exact Hs|]. cbn.
  repeat split; auto.
  - unfold str_oror. destruct (srv_category server) as [cat|].
    + destruct (String.eqb_spec cat ""); eexists; split; try reflexivity;
        [discriminate|assumption].
    + eexists. split; [reflexivity|discriminate].
  - unfold str_oror. destruct (srv_description server) as [desc|]; [|reflexivity].
    destruct (String.eqb_spec desc ""); cbn; congruence.
  - destruct (rd_error r); [discriminate|discriminate].
Qed.

(** The results of the probes, server by server. *)
Lemma queryServer_each (net : Server -> QueryEnv) (servers : list Server) :
  exists results,
    mapM (fun server => queryServer server (net server)) servers = Some results
    /\ Forall2 (fun server status =>
                  st_name status = srv_name server /\ st_online status = false
                  /\ st_error status <> None) servers results.
Proof.
  induction servers as [|server servers IH]; cbn.
  - exists []. split; [reflexivity|constructor].
  - destruct (queryServer_returns server (net server)) as (r & Hq & -> & Hoff & Herr).
    destruct (queryMinecraftServer_identity _ _ _ _ _ Hq) as (_ & Hname & _).
    destruct IH as (results & -> & Hall). cbn.
    eexists. split; [reflexivity|]. constructor; [|exact Hall].
    cbn. repeat split; auto. destruct (rd_error r); [discriminate|discriminate].
Qed.

End FleetResults.

Section Snapshot.
Context {platform : Platform} {laws : PlatformLaws platform}.

(** X15.  Every snapshot that is not taken from the cache lists the servers
    of the store once each (its [total] is their number, its names are
    theirs up to order), counts none of them online, and is in ascending
    order of names for [localeCompare]. *)
Theorem fresh_snapshot (useCache : bool) (now : Z) (c : ServerCache)
    (file : ReadFile) (net : Server -> QueryEnv) (stamp : Z) :
  useCache = false \/ cache_ttl c <= now - cache_lastUpdated c ->
  exists q d,
    queryAllServers useCache now c file net stamp = Some q
    /\ qa_result q = Ok (Fleet d)
    /\ fd_total d = length (getServerList file)
    /\ fd_online d = 0%nat
    /\ Permutation (map st_name (fd_servers d)) (map srv_name (getServerList file))
    /\ forall i j a b,
         (i < j)%nat -> fd_servers d !! i = Some a -> fd_servers d !! j = Some b ->
         localeCompare (st_name a) (st_name b) <= 0.
Proof.
  intros Hmiss. unfold queryAllServers.
  replace (useCache && (now - cache_lastUpdated c <? cache_ttl c)) with false.
  2:{ destruct Hmiss as [-> | Hexp]; [reflexivity|].
      symmetry. apply andb_false_intro2. apply Z.ltb_ge. exact Hexp. }
  destruct (queryServer_each net (getServerList file)) as (results & -> & Hall).
  assert (Hoff : Forall (fun s => st_online s = false) results).
  { clear -Hall. induction Hall; constructor; auto. tauto. }
  assert (Hnames : map st_name results = map srv_name (getServerList file)).
  { clear -Hall. induction Hall as [|? ? ? ? [Hn _] _ IH]; cbn; congruence. }
  assert (Hcmp : forall a b, st_online a = false -> st_online b = false ->
            comparator a b = Ok (Int (localeCompare (st_name a) (st_name b)))).
  { intros a b Ha Hb. unfold comparator. rewrite Ha, Hb. reflexivity. }
  destruct (Array_sort_ok comparator (fun s => st_online s = false)
              (fun a b => localeCompare (st_name a) (st_name b)) Hcmp results Hoff)
    as (sorted & Hsort & Hperm & Hgood).
  rewrite Hsort.
  assert (Hss : StronglySorted
                  (fun a b => localeCompare (st_name a) (st_name b) <= 0) sorted).
  { apply (Array_sort_sorted comparator (fun s => st_online s = false)
             (fun a b => localeCompare (st_name a) (st_name b)) Hcmp)
      with (l := results); auto.
    - intros a b _ _. apply localeCompare_total.
    - intros a b c' _ _ _. apply localeCompare_trans. }
  eexists _, _. split; [reflexivity|]. cbn. split; [reflexivity|].
  split; [|split; [|split]].
  - rewrite <- (Permutation_length Hperm).
    apply (f_equal (@length _)) in Hnames. rewrite !length_map in Hnames. exact Hnames.
  - clear -Hgood. induction Hgood as [|s l Hs _ IH]; [reflexivity|].
    rewrite filter_cons. destruct (decide _) as [Hon|_]; [congruence|exact IH].
  - rewrite <- Hnames. apply Permutation_map. symmetry. exact Hperm.
  - intros i j a b Hij Ha Hb.
    apply (StronglySorted_lookup _ _ Hss i j a b Hij Ha Hb).
Qed.

End Snapshot.

Lemma fresh_snapshot_witness :
  let file := read_ok [{| srv_id := 1; srv_name := "zeta"; srv_address := "z.example.com";
                          srv_port := 25565; srv_type := None; srv_category := None;
                          srv_description := None |};
                       {| srv_id := 2; srv_name := "alpha"; srv_address := "a.example.com";
                          srv_port := 25565; srv_type := None; srv_category := None;
                          srv_description := None |}] in
  let net := fun _ : Server =>
               {| qe_probe := scenario_env scenario_response;
                  qe_done := 1700000000050 |} in
  exists q d,
    queryAllServers (platform := Reference.platform) false 1700000000000 serverCache
      file net 1700000000060 = Some q
    /\ qa_result q = Ok (Fleet d)
    /\ fd_online d = 0%nat
    /\ map st_name (fd_servers d) = ["alpha"; "zeta"]%string.
Proof.
  intros file net.
  destruct (fresh_snapshot (laws := reference_laws) false 1700000000000 serverCache
              file net 1700000000060 (or_introl eq_refl))
    as (q & d & Hq & Hres & _ & Hon & _).
  exists q, d. split; [exact Hq|]. split; [exact Hres|]. split; [exact Hon|].
  vm_compute in Hq. injection Hq as <-. cbn in Hres. injection Hres as <-.
  reflexivity.
Defined.

(** ** The routes that change the store *)

Lemma fold_left_max_le (ids : list Z) (i : Z) :
  i <= fold_left Z.max ids i /\ Forall (fun x => x <= fold_left Z.max ids i) ids.
Proof.
  revert i. induction ids as [|x ids IH]; intros i; cbn.
  - split; [lia|constructor].
  - destruct (IH (Z.max i x)) as [Hle Hall]. split; [lia|].
    constructor; [lia|exact Hall].
Qed.

Lemma findIndex_none (serverId : Z) (servers : list Server) :
  ~ In serverId (map srv_id servers) -> findIndex serverId servers = None.
Proof.
  induction servers as [|s servers IH]; cbn; [reflexivity|]. intros Hnot.
  destruct (Z.eqb_spec (srv_id s) serverId) as [Heq|_]; [tauto|].
  rewrite IH by tauto. reflexivity.
Qed.

(** Where [findIndex] stops: at the first server with the id. *)
Lemma findIndex_first (serverId : Z) (servers : list Server) (i : nat) :
  findIndex serverId servers = Some i ->
  exists found,
    servers = take i servers ++ found :: drop (S i) servers
    /\ servers !! i = Some found
    /\ srv_id found = serverId
    /\ Forall (fun s => srv_id s <> serverId) (take i servers).
Proof.
  revert i. induction servers as [|s servers IH]; intros i; cbn; [discriminate|].
  destruct (Z.eqb_spec (srv_id s) serverId) as [Heq|Hne].
  - intros [= <-]. exists s. cbn. rewrite drop_0. repeat split; auto.
  - destruct (findIndex serverId servers) as [j|] eqn:Hj; cbn; [|discriminate].
    intros [= <-]. destruct (IH j eq_refl) as (found & Hsplit & Hlook & Hid & Hbefore).
    exists found. cbn. repeat split; auto. congruence.
Qed.

(** The first server with an id, in a list that ends with the only one. *)
Lemma findIndex_last (servers : list Server) (last : Server) :
  ~ In (srv_id last) (map srv_id servers) ->
  findIndex (srv_id last) (servers ++ [last]) = Some (length servers).
Proof.
  induction servers as [|s servers IH]; cbn; intros Hnot.
  - rewrite Z.eqb_refl. reflexivity.
  - destruct (Z.eqb_spec (srv_id s) (srv_id last)) as [Heq|_]; [tauto|].
    rewrite IH by tauto. reflexivity.
Qed.

(** What the route that adds a server does with a name and an address. *)
Lemma post_servers_accepts (req : NewServer) (file : ReadFile)
    (write : option JsError) (c : ServerCache) :
  str_not (body_name req) = false ->
  str_not (body_address req) = false ->
  exists newServer,
    post_servers req file write c
    = {| h_response := {| status := 200; body := body_success newServer None |};
         h_cache := invalidate c;
         h_saved := match write with
                    | None => Some (getServerList file ++ [newServer])
                    | Some _ => None
                    end |}
    /\ body_name req = Some (srv_name newServer)
    /\ body_address req = Some (srv_address newServer)
    /\ (getServerList file = [] -> srv_id newServer = 1)
    /\ Forall (fun s => srv_id s < srv_id newServer) (getServerList file).
Proof.
  intros Hname Haddr. unfold post_servers. rewrite Hname, Haddr. cbn [orb].
  eexists. split; [|split; [|split; [|split]]].
  - destruct write; reflexivity.
  - cbn. unfold str_not in Hname. unfold str_oror.
    destruct (body_name req) as [v|]; [|discriminate]. rewrite Hname. reflexivity.
  - cbn. unfold str_not in Haddr. unfold str_oror.
    destruct (body_address req) as [v|]; [|discriminate]. rewrite Haddr. reflexivity.
  - intros ->. reflexivity.
  - cbn. destruct (getServerList file) as [|s servers]; [constructor|].
    cbn [map]. destruct (fold_left_max_le (map srv_id servers) (srv_id s)) as [Hle Hall].
    constructor; [lia|].
    rewrite Forall_map in Hall. eapply Forall_impl; [exact Hall|].
    cbn. intros; lia.
Qed.

Lemma Forall_lt_not_In (servers : list Server) (n : Z) :
  Forall (fun s => srv_id s < n) servers -> ~ In n (map srv_id servers).
Proof.
  induction 1 as [|s servers Hs _ IH]; cbn; [tauto|]. intros [Heq|Hin]; [lia|tauto].
Qed.

(** X16.  A request to add a server that gives a name and an address is
    answered with status 200 and the new record; the record is put at the
    end of the list, the list is written, and the cache is invalidated.  The
    id of the record is greater than the id of every server of the list (1
    when the list is empty), so ids that are distinct stay distinct. *)
Theorem post_servers_appends (req : NewServer) (file : ReadFile) (c : ServerCache) :
  str_not (body_name req) = false ->
  str_not (body_address req) = false ->
  exists newServer,
    post_servers req file None c
    = {| h_response := {| status := 200; body := body_success newServer None |};
         h_cache := invalidate c;
         h_saved := Some (getServerList file ++ [newServer]) |}
    /\ body_name req = Some (srv_name newServer)
    /\ body_address req = Some (srv_address newServer)
    /\ Forall (fun s => srv_id s < srv_id newServer) (getServerList file)
    /\ (NoDup (map srv_id (getServerList file)) ->
        NoDup (map srv_id (getServerList file ++ [newServer]))).
Proof.
  intros Hname Haddr.
  destruct (post_servers_accepts req file None c Hname Haddr)
    as (newServer & Hpost & Hn & Ha & _ & Hfresh).
  exists newServer. repeat split; auto.
  intros Hnodup. rewrite map_app. cbn.
  apply NoDup_app. split; [exact Hnodup|]. split.
  - intros x Hx Hx'. apply list_elem_of_singleton in Hx'. subst x.
    apply list_elem_of_In in Hx. revert Hx. apply Forall_lt_not_In. exact Hfresh.
  - apply NoDup_singleton.
Qed.

Lemma post_servers_appends_witness :
  let req := {| body_name := Some "Example"%string;
                body_address := Some "play.example.com"%string;
                body_port := None; body_category := None; body_description := None |} in
  let old := {| srv_id := 7; srv_name := "Old"; srv_address := "old.example.com";
                srv_port := 25565; srv_type := None; srv_category := None;
                srv_description := None |} in
  exists newServer,
    h_saved (post_servers req (read_ok [old]) None serverCache) = Some [old; newServer]
    /\ srv_id newServer = 8.
Proof.
  intros req old.
  destruct (post_servers_appends req (read_ok [old]) serverCache eq_refl eq_refl)
    as (newServer & Hpost & _).
  exists newServer. rewrite Hpost. split; [reflexivity|].
  vm_compute in Hpost. injection Hpost as <-. reflexivity.
Defined.



(** X18.  A request to delete the server of an id that [parseInt] reads as
    a number of the list removes the first server with that number and no
    other: the servers before it and after it are written in their order,
    the response is 200 with the removed record and the message that names
    it, and the cache is invalidated. *)
Theorem delete_server_removes (id : string) (serverId : Z) (file : ReadFile)
    (c : ServerCache) :
  parseInt id = Int serverId ->
  In serverId (map srv_id (getServerList file)) ->
  exists before deleted after,
    getServerList file = before ++ deleted :: after
    /\ srv_id deleted = serverId
    /\ Forall (fun s => srv_id s <> serverId) before
    /\ delete_request id file None c
       = {| h_response :=
              {| status := 200;
                 body := body_success deleted
                           (Some ("服务器 " ++ double_quote ++ srv_name deleted
                                  ++ double_quote ++ " 已成功删除")%string) |};
            h_cache := invalidate c;
            h_saved := Some (before ++ after) |}.
Proof.
  intros Hid Hin. destruct (findIndex_found _ _ Hin) as [i Hi].
  destruct (findIndex_first _ _ _ Hi) as (deleted & Hsplit & Hlook & Hd & Hbefore).
  exists (take i (getServerList file)), deleted, (drop (S i) (getServerList file)).
  split; [exact Hsplit|]. split; [exact Hd|]. split; [exact Hbefore|].
  unfold delete_request, delete_server. rewrite Hid, Hi, Hlook. reflexivity.
Qed.

Lemma delete_server_removes_witness :
  let server := fun id name =>
    {| srv_id := id; srv_name := name; srv_address := "play.example.com";
       srv_port := 25565; srv_type := None; srv_category := None;
       srv_description := None |} in
  let file := read_ok [server 1 "a"; server 2 "b"; server 2 "c"]%string in
  h_saved (delete_request "2" file None serverCache)
  = Some [server 1 "a"; server 2 "c"]%string
  /\ exists before deleted after,
       getServerList file = before ++ deleted :: after
       /\ srv_id deleted = 2
       /\ Forall (fun s => srv_id s <> 2) before
       /\ delete_request "2" file None serverCache
          = {| h_response :=
                 {| status := 200;
                    body := body_success deleted
                              (Some ("服务器 " ++ double_quote ++ srv_name deleted
                                     ++ double_quote ++ " 已成功删除")%string) |};
               h_cache := invalidate serverCache;
               h_saved := Some (before ++ after) |}.
Proof.
  intros server file. split; [reflexivity|].
  apply (delete_server_removes "2" 2 file serverCache); [reflexivity|]. cbn. auto.
Defined.

(** X19.  A request to delete the server of an id that no server of the
    list has, or of an id that is not a number, changes nothing: it is
    answered with 404, or with 400, the cache is left as it was and nothing
    is written. *)
Theorem delete_server_unknown (serverId : JsNum) (file : ReadFile)
    (write : option JsError) (c : ServerCache) :
  match serverId with
  | Int n => ~ In n (map srv_id (getServerList file))
  | NaN => True
  end ->
  let h := delete_server serverId file write c in
  status (h_response h) = match serverId with Int _ => 404 | NaN => 400 end
  /\ h_cache h = c
  /\ h_saved h = None.
Proof.
  destruct serverId as [|n]; intros Hnot; cbn.
  - auto.
  - unfold delete_server. rewrite (findIndex_none _ _ Hnot). auto.
Qed.

Lemma delete_server_unknown_witness :
  let h := delete_server (Int 5) (read_ok []) None serverCache in
  status (h_response h) = 404 /\ h_cache h = serverCache /\ h_saved h = None.
Proof.
  apply (delete_server_unknown (Int 5) (read_ok []) None serverCache).
  cbn. tauto.
Defined.

(** X20.  Adding a server to a list and then deleting by an id that
    [parseInt] reads as the number the route gave writes the list as it was
    before, and the response of the deletion carries the record that was
    added, with the message that names it. *)
Theorem post_then_delete (req : NewServer) (servers : list Server) (c : ServerCache)
    (newServer : Server) (id : string) :
  str_not (body_name req) = false ->
  str_not (body_address req) = false ->
  body (h_response (post_servers req (read_ok servers) None c))
  = body_success newServer None ->
  parseInt id = Int (srv_id newServer) ->
  exists added,
    h_saved (post_servers req (read_ok servers) None c) = Some added
    /\ delete_request id (read_ok added) None
         (h_cache (post_servers req (read_ok servers) None c))
       = {| h_response :=
              {| status := 200;
                 body := body_success newServer
                           (Some ("服务器 " ++ double_quote ++ srv_name newServer
                                  ++ double_quote ++ " 已成功删除")%string) |};
            h_cache := invalidate c;
            h_saved := Some servers |}.
Proof.
  intros Hname Haddr Hnew Hid.
  destruct (post_servers_accepts req (read_ok servers) None c Hname Haddr)
    as (newServer' & Hpost & _ & _ & _ & Hfresh).
  rewrite Hpost in Hnew. cbn in Hnew. injection Hnew as ->.
  exists (servers ++ [newServer]). rewrite Hpost. cbn.
  split; [reflexivity|].
  unfold delete_request, delete_server. rewrite Hid. cbn [getServerList].
  rewrite (findIndex_last servers newServer (Forall_lt_not_In _ _ Hfresh)).
  rewrite lookup_app_r by lia. rewrite Nat.sub_diag. cbn [lookup list_lookup].
  rewrite take_app_length.
  rewrite drop_app_ge by lia.
  replace (S (length servers) - length servers)%nat with 1%nat by lia.
  cbn. rewrite app_nil_r. reflexivity.
Qed.

Lemma post_then_delete_witness :
  let req := {| body_name := Some "Example"%string;
                body_address := Some "play.example.com"%string;
                body_port := None; body_category := None; body_description := None |} in
  let old := {| srv_id := 7; srv_name := "Old"; srv_address := "old.example.com";
                srv_port := 25565; srv_type := None; srv_category := None;
                srv_description := None |} in
  let newServer := {| srv_id := 8; srv_name := "Example";
                      srv_address := "play.example.com"; srv_port := 25565;
                      srv_type := Some "java"%string;
                      srv_category := Some "未分类"%string;
                      srv_description := Some ""%string |} in
  exists added,
    h_saved (post_servers req (read_ok [old]) None serverCache) = Some added
    /\ h_saved (delete_request "8" (read_ok added) None
                  (h_cache (post_servers req (read_ok [old]) None serverCache)))
       = Some [old].
Proof.
  intros req old newServer.
  destruct (post_then_delete req [old] serverCache newServer "8"
              eq_refl eq_refl eq_refl eq_refl)
    as (added & Hadded & Hdel).
  exists added. split; [exact Hadded|]. rewrite Hdel. reflexivity.
Defined.

(** X21.  A request to update the server of an id that is in the list
    replaces the first server with that id by the record with the
    properties of the body laid over it, in place: the servers before it
    and after it keep their positions.  The response is 200 with the new
    record and the cache is invalidated, whether the list could be written
    or not.  A body that gives no id leaves the ids of the list as they
    were. *)
Theorem put_server_updates (serverId : Z) (body : ServerPatch) (file : ReadFile)
    (c : ServerCache) :
  In serverId (map srv_id (getServerList file)) ->
  exists before current after,
    getServerList file = before ++ current :: after
    /\ srv_id current = serverId
    /\ Forall (fun s => srv_id s <> serverId) before
    /\ (forall write,
          put_server (Int serverId) body file write c
          = {| h_response :=
                 {| status := 200;
                    body := body_success (spread_patch current body) None |};
               h_cache := invalidate c;
               h_saved := match write with
                          | None => Some (before ++ spread_patch current body :: after)
                          | Some _ => None
                          end |})
    /\ (patch_id body = None ->
        map srv_id (before ++ spread_patch current body :: after)
        = map srv_id (getServerList file)).
Proof.
  intros Hin. destruct (findIndex_found _ _ Hin) as [i Hi].
  destruct (findIndex_first _ _ _ Hi) as (current & Hsplit & Hlook & Hid & Hbefore).
  exists (take i (getServerList file)), current, (drop (S i) (getServerList file)).
  split; [exact Hsplit|]. split; [exact Hid|]. split; [exact Hbefore|]. split.
  - intros write. unfold put_server. rewrite Hi, Hlook.
    rewrite insert_take_drop by (eapply lookup_lt_Some; exact Hlook).
    destruct write; reflexivity.
  - intros Hnone. rewrite Hsplit at 3. rewrite !map_app. cbn. rewrite Hnone. reflexivity.
Qed.

Lemma put_server_updates_witness :
  let server := fun id name =>
    {| srv_id := id; srv_name := name; srv_address := "play.example.com";
       srv_port := 25565; srv_type := None; srv_category := None;
       srv_description := None |} in
  let body := {| patch_id := None; patch_name := Some "renamed"%string;
                 patch_address := None; patch_port := None; patch_type := None;
                 patch_category := None; patch_description := None |} in
  let file := read_ok [server 1 "a"; server 2 "b"; server 3 "c"]%string in
  h_saved (put_server (Int 2) body file None serverCache)
  = Some [server 1 "a"; server 2 "renamed"; server 3 "c"]%string
  /\ exists before current after,
       getServerList file = before ++ current :: after
       /\ srv_id current = 2
       /\ Forall (fun s => srv_id s <> 2) before
       /\ (forall write,
             put_server (Int 2) body file write serverCache
             = {| h_response :=
                    {| status := 200;
                       body := body_success (spread_patch current body) None |};
                  h_cache := invalidate serverCache;
                  h_saved := match write with
                             | None => Some (before ++ spread_patch current body :: after)
                             | Some _ => None
                             end |})
       /\ (patch_id body = None ->
           map srv_id (before ++ spread_patch current body :: after)
           = map srv_id (getServerList file)).
Proof.
  intros server body file. split; [reflexivity|].
  apply (put_server_updates 2 body file serverCache). cbn. auto.
Defined.

(** ** The routes that answer with the fleet *)

Section FleetRoutes.
Context {platform : Platform}.

(** X22.  On a store whose records have strings for names, which are the
    stores of this model, the routes that answer with the fleet never answer
    with status 500; no probe result is online, so the comparator never
    reads the players of a result.  The route that refreshes answers with a
    snapshot taken at that moment, of every server of the store, and leaves
    it in the cache; the route that lists answers with a snapshot or with
    the data of the cache; and listing with [nocache=true] does what
    refreshing does. *)
Theorem fleet_routes_answer (now : Z) (c : ServerCache) (file : ReadFile)
    (net : Server -> QueryEnv) (stamp : Z) :
  (exists d,
     post_refresh now c file net stamp
     = Some (fleet_json (Fleet d),
             {| cache_data := Fleet d; cache_lastUpdated := now;
                cache_ttl := cache_ttl c |})
     /\ fd_timestamp d = now
     /\ fd_total d = length (getServerList file))
  /\ (forall nocache, exists data c',
        get_servers nocache now c file net stamp = Some (fleet_json data, c'))
  /\ get_servers (Some "true"%string) now c file net stamp
     = post_refresh now c file net stamp.
Proof.
  destruct (queryAllServers_miss false now (invalidate c) file net stamp (or_introl eq_refl))
    as (d & Hq & Hstamp & _ & Htotal & _).
  destruct (queryAllServers_miss false now c file net stamp (or_introl eq_refl))
    as (d' & Hq' & _).
  split; [|split].
  - exists d. unfold post_refresh, refresh. rewrite Hq. cbn. auto.
  - intros nocache. unfold get_servers. cbv zeta.
    destruct (negb _) eqn:Huse.
    + unfold queryAllServers. cbn [andb].
      destruct (now - cache_lastUpdated c <? cache_ttl c) eqn:Hfresh.
      * cbn. eauto.
      * destruct (queryAllServers_miss true now c file net stamp) as (d'' & Hq'' & _).
        { right. apply Z.ltb_ge. exact Hfresh. }
        unfold queryAllServers in Hq''. cbn [andb] in Hq''. rewrite Hfresh in Hq''.
        rewrite Hq''. cbn. eauto.
    + rewrite Hq'. cbn. eauto.
  - unfold get_servers, post_refresh, refresh. cbv zeta.
    change (negb (String.eqb "true" "true")) with false.
    rewrite Hq, Hq'. cbn.
    unfold queryAllServers in Hq, Hq'. cbn [andb] in Hq, Hq'.
    cbn [getServerList invalidate cache_ttl] in Hq.
    destruct (mapM _ _); [|discriminate].
    destruct (Array_sort _ _); cbn in Hq, Hq'.
    + injection Hq as Hd _. injection Hq' as Hd' _. congruence.
    + discriminate.
Qed.

End FleetRoutes.

(** ** Deleting by the identifier of a listing *)

(** A string that begins with a letter is not a number for [parseInt]. *)
Lemma parseInt_letter (ch : ascii) (rest : string) :
  97 <= Z.of_N (N_of_ascii ch) <= 122 ->
  parseInt (String ch rest) = NaN.
Proof.
  intros Hch.
  destruct ch as [[] [] [] [] [] [] [] []]; cbn in Hch; try lia; reflexivity.
Qed.

(** The server a deletion answers with has the id that was asked for. *)
Lemma delete_request_answers (id : string) (file : ReadFile)
    (write : option JsError) (c : ServerCache) (deleted : Server) (msg : option string) :
  body (h_response (delete_request id file write c)) = body_success deleted msg ->
  parseInt id = Int (srv_id deleted).
Proof.
  unfold delete_request, delete_server. destruct (parseInt id) as [|n]; cbn; [discriminate|].
  destruct (findIndex n (getServerList file)) as [i|] eqn:Hi; cbn; [|discriminate].
  destruct (findIndex_first _ _ _ Hi) as (found & _ & Hlook & Hid & _).
  rewrite Hlook. destruct write; cbn; [discriminate|].
  intros [= <- _]. congruence.
Qed.

Section ListedId.
Context {platform : Platform}.

(** X23.  The page deletes a server by the [id] of its entry in the
    listing, which is the fingerprint the probe computed and not the id of
    the store.  The route reads it with [parseInt]: a fingerprint that
    begins with a letter is answered with 400, with details that quote it,
    and nothing is deleted; and whenever a server is deleted, it is the one
    whose id in the store is the number [parseInt] read, whichever server
    the entry was of. *)
Theorem delete_by_listed_id (server : Server) (env : QueryEnv) (file : ReadFile)
    (write : option JsError) (c : ServerCache) :
  exists status listed,
    queryServer server env = Some status
    /\ st_id status = IdStr listed
    /\ (forall ch rest,
          listed = String ch rest -> 97 <= Z.of_N (N_of_ascii ch) <= 122 ->
          delete_request listed file write c
          = {| h_response :=
                 {| status := 400;
                    body := body_error "无效的服务器ID"
                              (Some ("ID " ++ double_quote ++ listed ++ double_quote
                                     ++ " 不是有效的数字")%string) |};
               h_cache := c; h_saved := None |})
    /\ (forall deleted msg,
          body (h_response (delete_request listed file write c))
          = body_success deleted msg ->
          parseInt listed = Int (srv_id deleted)).
Proof.
  destruct (queryServer_returns server env) as (r & _ & Hs & _).
  eexists _, (rd_id r). split; [exact Hs|]. split; [reflexivity|]. split.
  - intros ch rest Hl Hch. unfold delete_request.
    rewrite Hl, (parseInt_letter ch rest Hch). reflexivity.
  - intros deleted msg. apply delete_request_answers.
Qed.

End ListedId.

(** The server of the scenario, listed as "bebda4b8", cannot be deleted from
    the page. *)
Example scenario_delete_listed :
  let server := {| srv_id := 1; srv_name := "Example";
                   srv_address := "play.example.com"; srv_port := 25565;
                   srv_type := None; srv_category := None;
                   srv_description := None |} in
  status (h_response (delete_request "bebda4b8" (read_ok [server]) None serverCache)) = 400.
Proof. reflexivity. Qed.

(** ** The patterns of the page *)

Lemma RegExp_test_Never (s : string) : RegExp_test Never s = false.
Proof. induction s; [reflexivity|assumption]. Qed.

Lemma RegExp_test_Alt (a b : Regex) (s : string) :
  RegExp_test (Alt a b) s = RegExp_test a s || RegExp_test b s.
Proof. revert a b. induction s as [|c s IH]; intros a b; [reflexivity|apply IH]. Qed.

(** A sequence whose head matches nothing matches nothing. *)
Lemma RegExp_test_Seq_dead (a b : Regex) :
  (forall s, RegExp_test a s = false) -> forall s, RegExp_test (Seq a b) s = false.
Proof.
  intros Hdead s. revert a Hdead. induction s as [|c s IH]; intros a Hdead.
  - cbn. rewrite (Hdead EmptyString : nullable a = false). reflexivity.
  - cbn. rewrite (Hdead EmptyString : nullable a = false).
    apply IH. intros s'. apply (Hdead (String c s')).
Qed.

Lemma RegExp_test_Seq_Eps (r : Regex) (s : string) :
  RegExp_test (Seq Eps r) s = RegExp_test r s.
Proof.
  destruct s as [|c s]; [reflexivity|]. cbn. rewrite RegExp_test_Alt.
  rewrite (RegExp_test_Seq_dead Never r RegExp_test_Never). reflexivity.
Qed.

(** The derivative by a character outside the classes matches nothing. *)
Lemma deriv_dead (allowed : ascii -> bool) (c : ascii) (r : Regex) :
  chars_in allowed r -> allowed c = false ->
  forall s, RegExp_test (deriv c r) s = false.
Proof.
  intros Hin Hc. induction r as [| |member|a IHa b IHb|a IHa b IHb|a IHa|a IHa min max];
    cbn in Hin |- *; intros s.
  - apply RegExp_test_Never.
  - apply RegExp_test_Never.
  - destruct (member c) eqn:Hm; [|apply RegExp_test_Never].
    rewrite (Hin c Hm) in Hc. discriminate.
  - destruct Hin as [Ha Hb]. destruct (nullable a).
    + rewrite RegExp_test_Alt, (RegExp_test_Seq_dead _ _ (IHa Ha)), (IHb Hb). reflexivity.
    + apply (RegExp_test_Seq_dead _ _ (IHa Ha)).
  - destruct Hin as [Ha Hb]. rewrite RegExp_test_Alt, (IHa Ha), (IHb Hb). reflexivity.
  - apply (RegExp_test_Seq_dead _ _ (IHa Hin)).
  - destruct max; [apply RegExp_test_Never|].
    apply (RegExp_test_Seq_dead _ _ (IHa Hin)).
Qed.

Lemma chars_in_deriv (allowed : ascii -> bool) (c : ascii) (r : Regex) :
  chars_in allowed r -> chars_in allowed (deriv c r).
Proof.
  induction r as [| |member|a IHa b IHb|a IHa b IHb|a IHa|a IHa min max];
    cbn; intros Hin; auto.
  - destruct (member c); exact I.
  - destruct Hin as [Ha Hb]. destruct (nullable a); cbn; auto.
  - destruct Hin as [Ha Hb]. auto.
  - destruct max; cbn; auto.
Qed.

(** A string that matches a pattern is made of characters of its classes. *)
Lemma RegExp_test_chars (allowed : ascii -> bool) (r : Regex) (s : string) :
  chars_in allowed r -> RegExp_test r s = true ->
  forallb allowed (list_ascii_of_string s) = true.
Proof.
  revert r. induction s as [|c s IH]; intros r Hin Hs; [reflexivity|].
  cbn in Hs |- *. destruct (allowed c) eqn:Hc.
  - cbn. apply (IH (deriv c r)); [apply chars_in_deriv; exact Hin|exact Hs].
  - rewrite (deriv_dead allowed c r Hin Hc) in Hs. discriminate.
Qed.

Ltac class_cases :=
  let c := fresh "c" in
  intros c; destruct c as [[] [] [] [] [] [] [] []]; vm_compute;
  try reflexivity; intros; discriminate.

Lemma patterns_chars : Forall (chars_in address_char) patterns.
Proof.
  repeat constructor; class_cases.
Qed.

Lemma isValidAddress_chars (address : string) :
  isValidAddress address = true ->
  forallb address_char (list_ascii_of_string address) = true.
Proof.
  unfold isValidAddress. intros Hsome. apply existsb_exists in Hsome.
  destruct Hsome as (pattern & Hpat & Htest).
  apply (RegExp_test_chars address_char pattern); [|exact Htest].
  pose proof patterns_chars as Hall. rewrite List.Forall_forall in Hall.
  apply Hall. exact Hpat.
Qed.

(** [a*] over a class *)
Lemma RegExp_test_Star_Class (member : ascii -> bool) (s : string) :
  RegExp_test (Star (Class member)) s = forallb member (list_ascii_of_string s).
Proof.
  induction s as [|c s IH]; [reflexivity|]. cbn. destruct (member c); cbn.
  - rewrite RegExp_test_Seq_Eps. exact IH.
  - apply (RegExp_test_Seq_dead Never _ RegExp_test_Never).
Qed.

(** [a+] over a class *)
Lemma RegExp_test_Plus_Class (member : ascii -> bool) (s : string) :
  RegExp_test (Plus (Class member)) s
  = negb (String.eqb s "") && forallb member (list_ascii_of_string s).
Proof.
  destruct s as [|c s]; [reflexivity|]. cbn. destruct (member c); cbn.
  - rewrite RegExp_test_Seq_Eps. apply RegExp_test_Star_Class.
  - apply (RegExp_test_Seq_dead Never _ RegExp_test_Never).
Qed.

(** X24.  Every address [isValidAddress] accepts is not empty and is made
    of ASCII letters, digits, [-], [_] and [.] only: no white space, no
    colon, no markup. *)
Theorem valid_address_chars (address : string) :
  isValidAddress address = true ->
  address <> ""%string
  /\ forallb address_char (list_ascii_of_string address) = true.
Proof.
  intros Hvalid. split.
  - intros ->. vm_compute in Hvalid. discriminate.
  - apply isValidAddress_chars. exact Hvalid.
Qed.

Lemma valid_address_chars_witness :
  isValidAddress "mc.example.com" = true
  /\ "mc.example.com"%string <> ""%string
  /\ forallb address_char (list_ascii_of_string "mc.example.com") = true.
Proof.
  assert (H : isValidAddress "mc.example.com" = true) by (vm_compute; reflexivity).
  split; [exact H|]. apply (valid_address_chars "mc.example.com" H).
Defined.

(** X25.  The last pattern alone accepts every non-empty run of letters,
    digits, [-] and [_], and nothing else: such a run is always a valid
    address, whatever it spells, and the pattern of [localhost] never
    decides. *)
Theorem hostname_is_valid (address : string) :
  (RegExp_test hostname_pattern address = true
   <-> address <> ""%string
       /\ forallb host_char (list_ascii_of_string address) = true)
  /\ (RegExp_test hostname_pattern address = true -> isValidAddress address = true)
  /\ (RegExp_test localhost_pattern address = true ->
      RegExp_test hostname_pattern address = true).
Proof.
  assert (Hiff : RegExp_test hostname_pattern address = true
                 <-> address <> ""%string
                     /\ forallb host_char (list_ascii_of_string address) = true).
  { unfold hostname_pattern. rewrite RegExp_test_Plus_Class, andb_true_iff.
    destruct (String.eqb_spec address ""); cbn; intuition congruence. }
  split; [exact Hiff|]. split.
  - intros Hhost. unfold isValidAddress, patterns. cbn [existsb].
    rewrite Hhost, !orb_true_r. reflexivity.
  - intros Hlocal. apply Hiff. split.
    + intros ->. vm_compute in Hlocal. discriminate.
    + apply (RegExp_test_chars host_char localhost_pattern); [|exact Hlocal].
      repeat constructor; class_cases.
Qed.

(** ** From the form to the store *)

(** What a form that passes [validateServerForm] holds. *)
Lemma validateServerForm_valid (data : FormData) :
  fst (validateServerForm data) = true ->
  form_name data <> ""%string
  /\ (js_length (form_name data) <= 50)%nat
  /\ form_address data <> ""%string
  /\ isValidAddress (form_address data) = true
  /\ exists port, parseInt (form_port data) = Int port /\ 1 <= port <= 65535.
Proof.
  unfold validateServerForm. cbv zeta.
  destruct (String.eqb_spec (form_name data) "") as [|Hname]; cbn [app].
  { destruct (String.eqb (form_address data) ""); [|destruct (negb _)];
      destruct (parseInt _) as [|p]; try destruct (_ || _); cbn; discriminate. }
  destruct (Nat.ltb_spec 50 (js_length (form_name data))) as [|Hlen].
  { destruct (String.eqb (form_address data) ""); [|destruct (negb _)];
      destruct (parseInt _) as [|p]; try destruct (_ || _); cbn; discriminate. }
  destruct (String.eqb_spec (form_address data) "") as [|Haddr].
  { destruct (parseInt _) as [|p]; try destruct (_ || _); cbn; discriminate. }
  destruct (isValidAddress (form_address data)) eqn:Hvalid; cbn [negb].
  2:{ destruct (parseInt _) as [|p]; try destruct (_ || _); cbn; discriminate. }
  destruct (parseInt (form_port data)) as [|p]; [cbn; discriminate|].
  destruct (_ || _) eqn:Hport; [cbn; discriminate|].
  intros _. apply orb_false_iff in Hport. destruct Hport as [H1 H2].
  apply Z.ltb_ge in H1, H2. repeat split; auto. exists p. split; [reflexivity|lia].
Qed.

(** X26.  A form that passes the checks of the page is never refused by the
    route: [addServer] posts a body the route answers with 200, and the
    record that is stored has the name and the address of the form, the
    port the form spells, between 1 and 65535, a name of at most 50 code
    units and an address of letters, digits, [-], [_] and [.]. *)
Theorem valid_form_is_stored (formData : FormData) (req : NewServer)
    (file : ReadFile) (c : ServerCache) :
  addServer formData = Some req ->
  exists newServer,
    post_servers req file None c
    = {| h_response := {| status := 200; body := body_success newServer None |};
         h_cache := invalidate c;
         h_saved := Some (getServerList file ++ [newServer]) |}
    /\ srv_name newServer = form_name formData
    /\ srv_address newServer = form_address formData
    /\ parseInt (form_port formData) = Int (srv_port newServer)
    /\ 1 <= srv_port newServer <= 65535
    /\ (js_length (srv_name newServer) <= 50)%nat
    /\ forallb address_char (list_ascii_of_string (srv_address newServer)) = true.
Proof.
  unfold addServer. destruct (fst (validateServerForm formData)) eqn:Hvalid;
    cbn [negb]; [|discriminate].
  intros [= <-].
  destruct (validateServerForm_valid formData Hvalid)
    as (Hname & Hlen & Haddr & Hvalid' & port & Hport & Hrange).
  assert (Hn : str_not (body_name (addServer_body formData)) = false).
  { cbn. destruct (String.eqb_spec (form_name formData) ""); congruence. }
  assert (Ha : str_not (body_address (addServer_body formData)) = false).
  { cbn. destruct (String.eqb_spec (form_address formData) ""); congruence. }
  destruct (post_servers_accepts (addServer_body formData) file None c Hn Ha)
    as (newServer & Hpost & Hname' & Haddr' & _).
  cbn in Hname', Haddr'. injection Hname' as Hname'. injection Haddr' as Haddr'.
  exists newServer. split; [exact Hpost|].
  assert (Hp : srv_port newServer = port).
  { unfold post_servers in Hpost. rewrite Hn, Ha in Hpost. cbn [orb] in Hpost.
    cbv zeta in Hpost. injection Hpost as Hpost. rewrite <- Hpost. cbn.
    rewrite Hport. destruct (Z.eqb_spec port 0); [lia|reflexivity]. }
  rewrite <- Hname', <- Haddr', Hp. repeat split; auto; try lia.
  apply isValidAddress_chars. exact Hvalid'.
Qed.

Lemma valid_form_is_stored_witness :
  let formData := {| form_name := "Example"; form_address := "mc.example.com";
                     form_port := "25566"; form_category := "";
                     form_description := "" |} in
  exists req newServer,
    addServer formData = Some req
    /\ h_saved (post_servers req (read_ok []) None serverCache) = Some [newServer]
    /\ srv_port newServer = 25566.
Proof.
  intros formData.
  assert (Hreq : addServer formData = Some (addServer_body formData))
    by (vm_compute; reflexivity).
  destruct (valid_form_is_stored formData _ (read_ok []) serverCache Hreq)
    as (newServer & Hpost & _ & _ & Hport & _).
  exists (addServer_body formData), newServer. split; [exact Hreq|].
  rewrite Hpost. split; [reflexivity|].
  change (parseInt (form_port formData)) with (Int 25566) in Hport.
  injection Hport as Hport. symmetry. exact Hport.
Defined.

(** ** Relative times *)

(** X27.  [formatRelativeTime] reads a timestamp less than ten seconds
    old, or ahead of the clock, as '刚刚'; then it counts whole seconds from
    10 to 59, whole minutes from 1 to 59 and whole hours from 1 to 23; and
    from a day on it gives the time of day. *)
Theorem formatRelativeTime_ranges (toLocaleTimeString : Z -> string)
    (timestamp now : Z) :
  let age := now - timestamp in
  let shown := formatRelativeTime toLocaleTimeString timestamp now in
  (age < 10000 -> shown = "刚刚"%string)
  /\ (10000 <= age < 60000 ->
      shown = (pretty (age / 1000) ++ "秒前")%string /\ 10 <= age / 1000 <= 59)
  /\ (60000 <= age < 3600000 ->
      shown = (pretty (age / 60000) ++ "分钟前")%string /\ 1 <= age / 60000 <= 59)
  /\ (3600000 <= age < 86400000 ->
      shown = (pretty (age / 3600000) ++ "小时前")%string /\ 1 <= age / 3600000 <= 23)
  /\ (86400000 <= age -> shown = toLocaleTimeString timestamp).
Proof.
  intros age shown. unfold shown, formatRelativeTime. fold age. cbv zeta.
  assert (Hmin : age / 1000 / 60 = age / 60000)
    by (rewrite Z.div_div by lia; reflexivity).
  assert (Hhour : age / 1000 / 60 / 60 = age / 3600000)
    by (rewrite !Z.div_div by lia; reflexivity).
  rewrite Hhour, Hmin.
  assert (Hs10 : age / 1000 < 10 <-> age < 10000)
    by (split; intros; [apply Z.nle_gt; intros ?; assert (10 <= age / 1000) by (apply Z.div_le_lower_bound; lia); lia
                       |apply Z.div_lt_upper_bound; lia]).
  assert (Hs60 : age / 1000 < 60 <-> age < 60000)
    by (split; intros; [apply Z.nle_gt; intros ?; assert (60 <= age / 1000) by (apply Z.div_le_lower_bound; lia); lia
                       |apply Z.div_lt_upper_bound; lia]).
  assert (Hm60 : age / 60000 < 60 <-> age < 3600000)
    by (split; intros; [apply Z.nle_gt; intros ?; assert (60 <= age / 60000) by (apply Z.div_le_lower_bound; lia); lia
                       |apply Z.div_lt_upper_bound; lia]).
  assert (Hh24 : age / 3600000 < 24 <-> age < 86400000)
    by (split; intros; [apply Z.nle_gt; intros ?; assert (24 <= age / 3600000) by (apply Z.div_le_lower_bound; lia); lia
                       |apply Z.div_lt_upper_bound; lia]).
  destruct (Z.ltb_spec (age / 1000) 10) as [H1|H1];
    [|destruct (Z.ltb_spec (age / 1000) 60) as [H2|H2];
      [|destruct (Z.ltb_spec (age / 60000) 60) as [H3|H3];
        [|destruct (Z.ltb_spec (age / 3600000) 24) as [H4|H4]]]].
  - repeat split; intros; try reflexivity; lia.
  - repeat split; intros; try reflexivity; lia.
  - assert (1 <= age / 60000) by (apply Z.div_le_lower_bound; lia).
    repeat split; intros; try reflexivity; lia.
  - assert (1 <= age / 3600000) by (apply Z.div_le_lower_bound; lia).
    repeat split; intros; try reflexivity; lia.
  - repeat split; intros; try reflexivity; lia.
Qed.
